(** * mghash: content-hash based build skipping

    A shallow embedding of the Go packages [mghash] (the [Fn] skip engine,
    the [Rule] and [DB] interfaces, the file-set rule [JRule]) and
    [mghash/sqlite] (the persistent hash store), followed by the properties
    proved about them.

    Calls are functions from the state of the world to a result and a new
    state.  The [context.Context] arguments are left out: cancellation is
    not part of the model.  [Fn.Name] and [Fn.ID], which go through
    [reflect] and [runtime], are not embedded. *)

From Stdlib Require Import ZArith Lia.
From Stdlib.Strings Require Byte.
From stdpp Require Import base decidable option countable gmap strings list sorting.

Open Scope Z_scope.

(** ** Go values *)

(** A Go [[]byte].  Digests are never nil, so nil and empty are not told
    apart here; where the code stores a nil [[]byte] on purpose (the null
    marker of a missing file) the model uses [option bytes]. *)
Abbreviation bytes := (list Byte.byte).

#[global] Instance byte_eq_dec : EqDecision Byte.byte := Byte.byte_eq_dec.

#[global] Program Instance byte_countable : Countable Byte.byte :=
  inj_countable Byte.to_N Byte.of_N _.
Next Obligation. intros x. apply Byte.of_to_N. Qed.

(** ** Errors

    Go [error] values as far as the code inspects them: the sentinel
    [fs.ErrNotExist], system call numbers, [*fs.PathError] as returned by
    [os.Open], the wrappers of [github.com/pkg/errors], and opaque errors of
    other libraries.  A Go [error] that may be nil is an [option error]. *)
Inductive error : Type :=
| ErrNotExist
| Errno (n : Z)
| PathError (op path : string) (err : error)
| withMessage (cause : error) (msg : string)
| errorString (msg : string).

#[global] Instance error_eq_dec : EqDecision error.
Proof. solve_decision. Defined.

Definition ENOENT : Z := 2.

Module errors.

(** [errors.Wrap(err, msg)]: nil stays nil. *)
Definition Wrap (err : option error) (msg : string) : option error :=
  match err with
  | None => None
  | Some e => Some (withMessage e msg)
  end.

(** [errors.Wrapf(err, format, path)] with the one [%s] filled in. *)
Definition Wrapf (err : option error) (prefix path : string) : option error :=
  Wrap err (prefix +:+ path).

(** [syscall.Errno.Is] restricted to the target the code asks about. *)
Definition errno_Is (n : Z) (target : error) : bool :=
  match target with
  | ErrNotExist => bool_decide (n = ENOENT)
  | _ => false
  end.

(** [errors.Is(err, target)] on a non-nil [err]: equality, the error's own
    [Is] method, or the same question asked of what it wraps. *)
Fixpoint Is_chain (e target : error) : bool :=
  bool_decide (e = target) ||
  match e with
  | Errno n => errno_Is n target
  | PathError _ _ c => Is_chain c target
  | withMessage c _ => Is_chain c target
  | _ => false
  end.

Definition Is (err : option error) (target : error) : bool :=
  match err with
  | None => false
  | Some e => Is_chain e target
  end.

End errors.

(** ** Wall-clock time

    A [time.Time] is a count of nanoseconds since the Unix epoch and a
    [time.Duration] a count of nanoseconds. *)
Definition Time := Z.
Definition Duration := Z.

Module time.
Definition Second : Duration := 1000000000.
(** [t.Unix()]: whole seconds, rounded towards minus infinity. *)
Definition Unix (t : Time) : Z := t `div` Second.
(** [t.Add(d)] *)
Definition Add (t : Time) (d : Duration) : Time := t + d.
End time.

(** ** Package sqlite: the persistent hash store *)

Module sqlite.

(** The table [hashes]: [hash BLOB NOT NULL PRIMARY KEY] mapped to
    [unix_secs INT NOT NULL]. *)
Abbreviation Table := (gmap bytes Z).

(** Database files by path.  A path outside the map has no [hashes]
    table (no such file, or a file in which the schema was never
    created). *)
Abbreviation Files := (gmap string Table).

(** The SQL texts of the package. *)
Inductive Query : Type :=
| schema    (* CREATE TABLE IF NOT EXISTS hashes (...) *)
| q_Has     (* UPDATE hashes SET unix_secs = $1 WHERE hash = $2 *)
| q_Add     (* INSERT INTO hashes (hash, unix_secs) VALUES ($1, $2)
               ON CONFLICT DO UPDATE SET unix_secs = $2 WHERE hash = $1 *)
| q2_Add.   (* DELETE FROM hashes WHERE unix_secs < $1 *)

(** Arguments as the code passes them: [int64] and [[]byte]. *)
Inductive Arg : Type :=
| ArgInt (n : Z)
| ArgBlob (b : bytes).

(** Number of placeholders of a statement. *)
Definition NumInput (q : Query) : nat :=
  match q with
  | schema => 0
  | q_Has => 2
  | q_Add => 2
  | q2_Add => 1
  end.

(** [sql.Result] *)
Record Result : Type := { RowsAffected : Z * option error }.

Definition affected (n : Z) : Result := {| RowsAffected := (n, None) |}.

(** What a statement does to the table once its arguments are bound, and
    the number of rows it affects.  [None] stands for argument kinds that
    the package never passes to that statement. *)
Definition step (q : Query) (args : list Arg) (t : Table) : option (Z * Table) :=
  match q, args with
  | schema, _ => Some (0, t)
  | q_Has, ArgInt secs :: ArgBlob h :: _ =>
      match t !! h with
      | Some _ => Some (1, <[h := secs]> t)
      | None => Some (0, t)
      end
  | q_Add, ArgBlob h :: ArgInt secs :: _ => Some (1, <[h := secs]> t)
  | q2_Add, ArgInt bound :: _ =>
      let t' := filter (λ kv, ¬ (kv.2 < bound)) t in
      Some (Z.of_nat (size t) - Z.of_nat (size t'), t')
  | _, _ => None
  end.

(** [ExecContext(ctx, query, args...)] of [sql.DB] on the file at [path],
    as the go-sqlite3 driver runs it: the statement is prepared (which
    fails when the table is missing), then the driver refuses a call with
    fewer arguments than the statement has placeholders, then the
    statement runs.  The schema statement creates the table when it is
    missing. *)
Definition ExecContext (path : string) (q : Query) (args : list Arg)
    (fsys : Files) : (option Result * option error) * Files :=
  match q, fsys !! path with
  | schema, None => ((Some (affected 0), None), <[path := ∅]> fsys)
  | schema, Some _ => ((Some (affected 0), None), fsys)
  | _, None => ((None, Some (errorString "no such table: hashes")), fsys)
  | _, Some t =>
      if bool_decide (length args < NumInput q)%nat
      then ((None, Some (errorString "not enough args to execute query")), fsys)
      else match step q args t with
           | Some (n, t') => ((Some (affected n), None), <[path := t']> fsys)
           | None => ((None, Some (errorString "datatype mismatch")), fsys)
           end
  end.

(** [type DB struct { db *sql.DB; keep time.Duration }]; the connection
    is identified by the path of the file it was opened on. *)
Record DB : Type := { db : string; keep : Duration }.

(** [type Option func(db *DB)] *)
Definition Option := DB → DB.

(** [Keep(d)] *)
Definition Keep (d : Duration) : Option :=
  λ db0, {| db := db db0; keep := d |}.

(** [Open(ctx, path, opts...)].  [sql.Open] only records the driver and
    the path; the file is first touched by the schema statement. *)
Definition Open (path : string) (opts : list Option) (fsys : Files)
    : (option DB * option error) * Files :=
  match ExecContext path schema [] fsys with
  | ((_, Some e), fsys') => ((None, errors.Wrap (Some e) "creating schema"), fsys')
  | ((_, None), fsys') =>
      let result := {| db := path; keep := 0 |} in
      ((Some (foldl (λ r opt, opt r) result opts), None), fsys')
  end.

(** [DB.Has(ctx, h)], with the reading [now] of [time.Now()]. *)
Definition DB_Has (d : DB) (now : Time) (h : bytes) (fsys : Files)
    : (bool * option error) * Files :=
  match ExecContext (db d) q_Has [ArgInt (time.Unix now); ArgBlob h] fsys with
  | ((Some res, None), fsys') =>
      let '(aff, err) := RowsAffected res in
      ((bool_decide (aff > 0), errors.Wrap err "counting affected rows"), fsys')
  | ((_, err), fsys') => ((false, errors.Wrap err "updating database"), fsys')
  end.

(** [DB.Add(ctx, h)], with the readings [now1] and [now2] of its two
    [time.Now()] calls.  The second [ExecContext] is given [q], as in the
    source, not [q2]. *)
Definition DB_Add (d : DB) (now1 now2 : Time) (h : bytes) (fsys : Files)
    : option error * Files :=
  match ExecContext (db d) q_Add [ArgBlob h; ArgInt (time.Unix now1)] fsys with
  | ((_, Some e), fsys') => (errors.Wrap (Some e) "adding hash to database", fsys')
  | ((_, None), fsys') =>
      if bool_decide (keep d > 0)
      then
        match ExecContext (db d) q_Add
                [ArgInt (time.Unix (time.Add now2 (- keep d)))] fsys' with
        | ((_, Some e), fsys'') =>
            (errors.Wrap (Some e) "evicting expired database entries", fsys'')
        | ((_, None), fsys'') => (None, fsys'')
        end
      else (None, fsys')
  end.

End sqlite.

(** ** Effects

    A call either returns a value or panics, and changes the state of the
    world it runs in. *)

Inductive Res (A : Type) : Type :=
| Val (a : A)
| Panic (msg : string).
Arguments Val {A} a.
Arguments Panic {A} msg.

Definition Eff (W A : Type) : Type := W → Res A * W.

#[global] Instance Eff_ret {W} : MRet (Eff W) := λ A a w, (Val a, w).

#[global] Instance Eff_bind {W} : MBind (Eff W) := λ A B k m w,
  match m w with
  | (Val a, w') => k a w'
  | (Panic msg, w') => (Panic msg, w')
  end.

(** [s[i]] and [s[i:]] with Go's bounds checks. *)
Definition index {W A} (s : list A) (i : nat) : Eff W A := λ w,
  match s !! i with
  | Some x => (Val x, w)
  | None => (Panic "index out of range", w)
  end.

Definition slice_from {W A} (s : list A) (i : nat) : Eff W (list A) := λ w,
  if bool_decide (i ≤ length s)%nat
  then (Val (drop i s), w)
  else (Panic "slice bounds out of range", w).

(** ** Package mghash: interfaces and the skip engine *)

(** What the package asks of its host process: [mg.Verbose()] and
    [log.Printf]. *)
Class Host (W : Type) : Type := {
  mg_Verbose : W → bool;
  log_Printf : string → W → W
}.

Definition call_Verbose {W} `{!Host W} : Eff W bool := λ w, (Val (mg_Verbose w), w).

Definition call_Printf {W} `{!Host W} (line : string) : Eff W () := λ w,
  (Val (), log_Printf line w).

(** [type Rule interface { fmt.Stringer; RuleHash() []byte;
    ContentHash(context.Context) ([]byte, error); Run(context.Context) error }] *)
Class Rule (W R : Type) : Type := {
  Rule_String : R → string;
  Rule_RuleHash : R → Eff W bytes;
  Rule_ContentHash : R → Eff W (bytes * option error);
  Rule_Run : R → Eff W (option error)
}.

(** [type DB interface { Has(context.Context, []byte) (bool, error);
    Add(context.Context, []byte) error }] *)
Class DB (W D : Type) : Type := {
  DB_Has : D → bytes → Eff W (bool * option error);
  DB_Add : D → bytes → Eff W (option error)
}.

(** [type Fn struct { DB DB; Rule Rule }] *)
Record Fn (D R : Type) : Type := { Fn_DB : D; Fn_Rule : R }.
Arguments Build_Fn {D R} _ _.
Arguments Fn_DB {D R} _.
Arguments Fn_Rule {D R} _.

(** [func (f *Fn) Run(ctx context.Context) error] *)
Definition Fn_Run {W D R} `{!Host W, !DB W D, !Rule W R} (f : Fn D R)
    : Eff W (option error) :=
  '(h, err) ← Rule_ContentHash (Fn_Rule f);
  if err is Some _ then mret (errors.Wrap err "computing content hash") else
  '(ok, err) ← DB_Has (Fn_DB f) h;
  if err is Some _ then mret (errors.Wrap err "consulting hash DB") else
  if ok : bool then
    v ← call_Verbose;
    _ ← (if v : bool
         then call_Printf (Rule_String (Fn_Rule f) +:+ " up to date")
         else mret ());
    mret None
  else
  err ← Rule_Run (Fn_Rule f);
  if err is Some _ then mret (errors.Wrap err "in Run") else
  '(h, err) ← Rule_ContentHash (Fn_Rule f);
  if err is Some _ then mret (errors.Wrap err "recomputing content hash") else
  DB_Add (Fn_DB f) h.

(** *** Observing the calls of one invocation

    A rule or store wrapped in [Spy] behaves like the one it wraps and
    appends every call made through the interface to a log kept next to the
    world, the way a test double records its calls. *)

Inductive Call : Type :=
| CallContentHash
| CallHas (h : bytes)
| CallRun
| CallAdd (h : bytes).

#[global] Instance Call_eq_dec : EqDecision Call.
Proof. solve_decision. Defined.

Record Spy (T : Type) : Type := spy { spied : T }.
Arguments spy {T} _.
Arguments spied {T} _.

Definition quiet {W A} (m : Eff W A) : Eff (W * list Call) A := λ s,
  let '(r, w') := m s.1 in (r, (w', s.2)).

Definition logged_as {W A} (c : Call) (m : Eff W A) : Eff (W * list Call) A := λ s,
  let '(r, w') := m s.1 in (r, (w', s.2 ++ [c])).

#[global] Instance Spy_Host {W} `{!Host W} : Host (W * list Call) := {|
  mg_Verbose s := mg_Verbose s.1;
  log_Printf line s := (log_Printf line s.1, s.2)
|}.

#[global] Instance Spy_Rule {W R} `{!Rule W R} : Rule (W * list Call) (Spy R) := {|
  Rule_String r := Rule_String (spied r);
  Rule_RuleHash r := quiet (Rule_RuleHash (spied r));
  Rule_ContentHash r := logged_as CallContentHash (Rule_ContentHash (spied r));
  Rule_Run r := logged_as CallRun (Rule_Run (spied r))
|}.

#[global] Instance Spy_DB {W D} `{!DB W D} : DB (W * list Call) (Spy D) := {|
  DB_Has d h := logged_as (CallHas h) (DB_Has (spied d) h);
  DB_Add d h := logged_as (CallAdd h) (DB_Add (spied d) h)
|}.

Definition spy_Fn {D R} (f : Fn D R) : Fn (Spy D) (Spy R) :=
  {| Fn_DB := spy (Fn_DB f); Fn_Rule := spy (Fn_Rule f) |}.

(** ** The world of a build

    What the concrete rule and store read and change.  The clock and the
    verbosity flag are inputs: calls read them, and whoever runs the calls
    moves them in between. *)

(** What [os.Open(path)] followed by reading to the end yields. *)
Inductive File : Type :=
| OpenFails (err : error)
| Opened (content : bytes) (rerr : option error).

Abbreviation FS := (string → File).

Record World : Type := {
  files : FS;               (* the file system, as seen from the process *)
  dbs : sqlite.Files;       (* sqlite database files *)
  now : Time;               (* what time.Now() reads *)
  verbose : bool;           (* what mg.Verbose() reads *)
  logged : list string      (* lines written with log.Printf *)
}.

Definition set_dbs (w : World) (d : sqlite.Files) : World :=
  {| files := files w; dbs := d; now := now w; verbose := verbose w;
     logged := logged w |}.

Definition add_logged (w : World) (line : string) : World :=
  {| files := files w; dbs := dbs w; now := now w; verbose := verbose w;
     logged := logged w ++ [line] |}.

#[global] Instance World_Host : Host World := {|
  mg_Verbose := verbose;
  log_Printf line w := add_logged w line
|}.

(** [sqlite.DB] implements [mghash.DB]; both statements of [Add] read the
    clock of the world. *)
#[global] Instance sqlite_DB : DB World sqlite.DB := {|
  DB_Has d h := λ w,
    let '(r, fsys) := sqlite.DB_Has d (now w) h (dbs w) in (Val r, set_dbs w fsys);
  DB_Add d h := λ w,
    let '(r, fsys) := sqlite.DB_Add d (now w) (now w) h (dbs w) in
    (Val r, set_dbs w fsys)
|}.

(** ** The file-set rule *)

(** [type JRule struct { Sources, Targets, Command []string; Dir string }]

    This is the revision of the type with the [Dir] field.  The file
    [jrule.go] holds the revision before it: no [Dir] (so [Run] starts the
    command in the current directory), the same text for [RuleHash],
    [fillWithFileHashes] and [hashFile], and a debugging print in
    [ContentHash].  A nil slice and an empty one are both the empty list;
    [RuleHash] and [ContentHash] treat them alike for [Sources] and
    [Targets], and [Run] panics on both for [Command]. *)
Record JRule : Type := {
  Sources : list string;
  Targets : list string;
  Command : list string;
  Dir : string
}.

(** The anonymous struct that [ContentHash] marshals. *)
Record contentStruct : Type := {
  cSources : gmap string (option bytes);
  cTargets : gmap string (option bytes);
  cCommand : list string
}.

(** [exec.Cmd], the fields the package sets. *)
Inductive Stream : Type := os_Stdout | os_Stderr.

Record Cmd : Type := {
  Path : string;
  Args : list string;
  Cmd_Dir : string;
  Stdout : option Stream;
  Stderr : option Stream
}.

(** Go compares strings byte by byte. *)
Definition string_le (a b : string) : Prop := String.leb a b = true.

#[global] Instance string_le_dec : RelDecision string_le.
Proof. intros a b. unfold string_le. apply _. Defined.

(** [sort.Strings] *)
Definition sort_Strings (l : list string) : list string := merge_sort string_le l.

(** [strings.Join] *)
Definition strings_Join (elems : list string) (sep : string) : string :=
  String.concat sep elems.

(** ** Hexadecimal text

    [hex.EncodeToString], which is also what the verb [%x] of [fmt] writes
    for a byte slice: two lower-case digits per byte, high half first. *)
Definition hextable : string := "0123456789abcdef".

Definition hex_digit (n : N) : Ascii.ascii :=
  default (Ascii.ascii_of_nat 48) (String.get (N.to_nat n) hextable).

Definition hex_EncodeToString (src : bytes) : string :=
  foldr (λ v s, String (hex_digit (N.shiftr (Byte.to_N v) 4))
                  (String (hex_digit (N.land (Byte.to_N v) 15)) s))
        EmptyString src.

(** The anonymous struct that [Fn.ID] marshals. *)
Record idStruct : Type := { id_Name : string; id_RuleHash : bytes }.

(** ** Rules for the protocol buffer compiler

    [Proto] and the option [Protoc].  The source writes the type of the
    literal in [Proto] as [ProtoCmd]; the struct declared is [protoCmd],
    the one with these fields.  An option, a function on a pointer to the
    struct, is a function from the struct to the struct.  [ProtoDirs] and
    [ProtocArgs] are not embedded: their bodies do not use their
    parameter but names that are not declared. *)
Module proto.





End proto.

(** ** The file-set rule before [Dir]

    [jrule.go], the revision of [JRule] without the [Dir] field.  Its
    [fillWithFileHashes] and [hashFile] are the ones above. *)
Record JRule0 : Type := {
  Sources0 : list string;
  Targets0 : list string;
  Command0 : list string
}.

(** The rule of the later revision with the same lists. *)
Definition with_Dir0 (jr : JRule0) (dir : string) : JRule :=
  {| Sources := Sources0 jr; Targets := Targets0 jr; Command := Command0 jr;
     Dir := dir |}.

Definition newline : string := String (Ascii.ascii_of_nat 10) EmptyString.

Section mghash.

(** Functions of other packages, taken as they are: [sha256.Sum256]
    (which is also what [sha256.New], [io.Copy] and [Sum(nil)] compute
    over a whole stream), [json.Marshal] of canonicaljson-go at the two
    types it is called at (it writes the entries of a map in the order of
    their keys, so its output depends on the map only through its
    contents), and [Run] of [exec.Cmd], which may do anything to the
    world. *)
Variable sha256_Sum256 : bytes → bytes.
Variable json_Marshal_JRule : JRule → bytes * option error.
Variable json_Marshal_content : contentStruct → bytes * option error.
Variable Cmd_Run : Cmd → World → option error * World.

(** [func (jr JRule) String() string] *)
Definition JRule_String (jr : JRule) : string :=
  "JRule[" +:+ strings_Join (Targets jr) " " +:+ "]".

(** [func (jr JRule) RuleHash() []byte].  The copy [jr2] has no [Dir]. *)
Definition RuleHash_jr2 (jr : JRule) : JRule :=
  {| Sources := sort_Strings (Sources jr);
     Targets := sort_Strings (Targets jr);
     Command := Command jr;
     Dir := "" |}.

Definition JRule_RuleHash (jr : JRule) : bytes :=
  let '(j, _) := json_Marshal_JRule (RuleHash_jr2 jr) in
  sha256_Sum256 j.

(** [func hashFile(path string) ([]byte, error)]; the digest is nil
    exactly when an error is returned. *)
Definition hashFile (fsys : FS) (path : string) : option bytes * option error :=
  match fsys path with
  | OpenFails e => (None, errors.Wrapf (Some e) "opening " path)
  | Opened content (Some e) => (None, errors.Wrapf (Some e) "hashing " path)
  | Opened content None => (Some (sha256_Sum256 content), None)
  end.

(** [func fillWithFileHashes(files []string, hashes map[string][]byte) error];
    the map is updated in place, so the model hands it back. *)
Fixpoint fillWithFileHashes (fsys : FS) (fs : list string)
    (hashes : gmap string (option bytes))
    : gmap string (option bytes) * option error :=
  match fs with
  | [] => (hashes, None)
  | file :: rest =>
      let '(h, err) := hashFile fsys file in
      if errors.Is err ErrNotExist
      then fillWithFileHashes fsys rest (<[file := None]> hashes)
      else if err is Some _
      then (hashes, errors.Wrapf err "computing hash of " file)
      else fillWithFileHashes fsys rest (<[file := h]> hashes)
  end.

(** [func (jr JRule) ContentHash(_ context.Context) ([]byte, error)] *)
Definition JRule_ContentHash (jr : JRule) : Eff World (bytes * option error) := λ w,
  let '(srcs, err) := fillWithFileHashes (files w) (Sources jr) ∅ in
  if err is Some _
  then (Val ([], errors.Wrap err "computing source hash(es)"), w) else
  let '(tgts, err) := fillWithFileHashes (files w) (Targets jr) ∅ in
  if err is Some _
  then (Val ([], errors.Wrap err "computing target hash(es)"), w) else
  let s := {| cSources := srcs; cTargets := tgts; cCommand := Command jr |} in
  let '(j, err) := json_Marshal_content s in
  if err is Some _
  then (Val ([], errors.Wrap err "in JSON marshaling"), w) else
  (Val (sha256_Sum256 j, None), w).

(** [exec.CommandContext(ctx, name, arg...)] *)
Definition exec_CommandContext (name : string) (arg : list string) : Cmd :=
  {| Path := name; Args := name :: arg; Cmd_Dir := ""; Stdout := None;
     Stderr := None |}.

(** [func (jr JRule) Run(ctx context.Context) error] *)
Definition JRule_Run (jr : JRule) : Eff World (option error) :=
  name ← index (Command jr) 0;
  arg ← slice_from (Command jr) 1;
  let cmd := exec_CommandContext name arg in
  let cmd := {| Path := Path cmd; Args := Args cmd; Cmd_Dir := Dir jr;
                Stdout := Stdout cmd; Stderr := Stderr cmd |} in
  v ← call_Verbose;
  cmd ← (if v : bool
         then
           c0 ← index (Command jr) 0;
           rest ← slice_from (Command jr) 1;
           _ ← call_Printf ("Running " +:+ c0 +:+ " " +:+ strings_Join rest " ");
           mret {| Path := Path cmd; Args := Args cmd; Cmd_Dir := Cmd_Dir cmd;
                   Stdout := Some os_Stdout; Stderr := Some os_Stderr |}
         else mret cmd) : Eff World Cmd;
  (λ w, let '(err, w') := Cmd_Run cmd w in (Val err, w')) : Eff World (option error).

(** [var _ Rule = JRule{}] *)
#[local] Instance JRule_Rule : Rule World JRule := {|
  Rule_String := JRule_String;
  Rule_RuleHash jr := mret (JRule_RuleHash jr);
  Rule_ContentHash := JRule_ContentHash;
  Rule_Run := JRule_Run
|}.

(** ** The identity of a dependency *)

(** [json.Marshal] at the struct of [Fn.ID] and at the earlier [JRule]. *)
Variable json_Marshal_ID : idStruct → bytes * option error.
Variable json_Marshal_JRule0 : JRule0 → bytes * option error.

(** [func (f *Fn) ID() string].  What [f.Name()] returns comes from
    [reflect] and [runtime] and is passed in as [name]. *)
Definition Fn_ID {W D R} `{!Rule W R} (name : string) (f : Fn D R) : Eff W string :=
  h ← Rule_RuleHash (Fn_Rule f);
  let '(j, _) := json_Marshal_ID {| id_Name := name; id_RuleHash := h |} in
  mret (hex_EncodeToString (sha256_Sum256 j)).

(** ** The methods of the rule before [Dir]

    [ContentHash] of that revision writes a line to the standard output,
    which is kept as a list of writes beside the world. *)

(** [func (jr JRule) RuleHash() []byte] *)
Definition JRule0_RuleHash (jr : JRule0) : bytes :=
  let jr2 := {| Sources0 := sort_Strings (Sources0 jr);
                Targets0 := sort_Strings (Targets0 jr);
                Command0 := Command0 jr |} in
  let '(j, _) := json_Marshal_JRule0 jr2 in
  sha256_Sum256 j.

(** [fmt.Printf("xxx jr.Hash for %v: %x\n", jr.Targets, sum[:])] *)
Definition xxx_line (targets : list string) (sum : bytes) : string :=
  "xxx jr.Hash for [" +:+ strings_Join targets " " +:+ "]: "
  +:+ hex_EncodeToString sum +:+ newline.

(** [func (jr JRule) ContentHash(_ context.Context) ([]byte, error)] *)
Definition JRule0_ContentHash (jr : JRule0)
    : Eff (World * list string) (bytes * option error) := λ s,
  let w := s.1 in
  let '(srcs, err) := fillWithFileHashes (files w) (Sources0 jr) ∅ in
  if err is Some _
  then (Val ([], errors.Wrap err "computing source hash(es)"), s) else
  let '(tgts, err) := fillWithFileHashes (files w) (Targets0 jr) ∅ in
  if err is Some _
  then (Val ([], errors.Wrap err "computing target hash(es)"), s) else
  let st := {| cSources := srcs; cTargets := tgts; cCommand := Command0 jr |} in
  let '(j, err) := json_Marshal_content st in
  if err is Some _
  then (Val ([], errors.Wrap err "in JSON marshaling"), s) else
  let sum := sha256_Sum256 j in
  (Val (sum, None), (w, s.2 ++ [xxx_line (Targets0 jr) sum])).

(** [func (jr JRule) Run(ctx context.Context) error] *)
Definition JRule0_Run (jr : JRule0) : Eff World (option error) :=
  name ← index (Command0 jr) 0;
  arg ← slice_from (Command0 jr) 1;
  let cmd := exec_CommandContext name arg in
  v ← call_Verbose;
  let cmd := if v : bool
             then {| Path := Path cmd; Args := Args cmd; Cmd_Dir := Cmd_Dir cmd;
                     Stdout := Some os_Stdout; Stderr := Some os_Stderr |}
             else cmd in
  (λ w, let '(err, w') := Cmd_Run cmd w in (Val err, w')) : Eff World (option error).

(** ** Histories of a store

    One step of the life of the database files: some process opens a
    store, or calls [Has] or [Add] on one, with any options and at any
    time.  A later invocation, or a restart against the same file, is a
    sequence of such steps. *)
Inductive store_step : relation sqlite.Files :=
| step_Open path opts fsys r fsys' :
    sqlite.Open path opts fsys = (r, fsys') → store_step fsys fsys'
| step_Has d now h fsys r fsys' :
    sqlite.DB_Has d now h fsys = (r, fsys') → store_step fsys fsys'
| step_Add d now1 now2 h fsys r fsys' :
    sqlite.DB_Add d now1 now2 h fsys = (r, fsys') → store_step fsys fsys'.

(** The file at [path] has the table and the table has a row for [h]. *)
Definition stored (path : string) (h : bytes) (fsys : sqlite.Files) : Prop :=
  ∃ t, fsys !! path = Some t ∧ is_Some (t !! h).

(** The file at [path] has the table and the table has no row for [h]. *)
Definition not_stored (path : string) (h : bytes) (fsys : sqlite.Files) : Prop :=
  ∃ t, fsys !! path = Some t ∧ t !! h = None.

(** ** Failures of one invocation of the skip engine

    [build_fails f w e ctx w']: started in world [w], the invocation of
    [f] meets error [e] in the phase that [Fn.Run] names [ctx], and the
    world is then [w']: the first content hash fails; or the hash is
    computed, the store answers that it is unknown, and the build action
    fails; or the build action succeeds and the second content hash
    fails. *)
Inductive build_fails {W D R} `{!Host W, !DB W D, !Rule W R} (f : Fn D R) (w : W)
    : error → string → W → Prop :=
| fails_first_hash h e w1 :
    Rule_ContentHash (Fn_Rule f) w = (Val (h, Some e), w1) →
    build_fails f w e "computing content hash" w1
| fails_in_Run h w1 w2 e w3 :
    Rule_ContentHash (Fn_Rule f) w = (Val (h, None), w1) →
    DB_Has (Fn_DB f) h w1 = (Val (false, None), w2) →
    Rule_Run (Fn_Rule f) w2 = (Val (Some e), w3) →
    build_fails f w e "in Run" w3
| fails_second_hash h w1 w2 w3 h' e w4 :
    Rule_ContentHash (Fn_Rule f) w = (Val (h, None), w1) →
    DB_Has (Fn_DB f) h w1 = (Val (false, None), w2) →
    Rule_Run (Fn_Rule f) w2 = (Val None, w3) →
    Rule_ContentHash (Fn_Rule f) w3 = (Val (h', Some e), w4) →
    build_fails f w e "recomputing content hash" w4.

(** ** Comparing rules *)

(** A rule with one field replaced. *)
Definition with_Sources (jr : JRule) (l : list string) : JRule :=
  {| Sources := l; Targets := Targets jr; Command := Command jr; Dir := Dir jr |}.

Definition with_Targets (jr : JRule) (l : list string) : JRule :=
  {| Sources := Sources jr; Targets := l; Command := Command jr; Dir := Dir jr |}.

Definition with_Command (jr : JRule) (l : list string) : JRule :=
  {| Sources := Sources jr; Targets := Targets jr; Command := l; Dir := Dir jr |}.

Definition with_Dir (jr : JRule) (d : string) : JRule :=
  {| Sources := Sources jr; Targets := Targets jr; Command := Command jr; Dir := d |}.

(** Two rules declare the same sources and the same targets, each up to
    the order in which they are listed, and the same command. *)
Definition same_identity (jr jr' : JRule) : Prop :=
  Sources jr ≡ₚ Sources jr' ∧ Targets jr ≡ₚ Targets jr' ∧ Command jr = Command jr'.

(** The encoder gives different structs different bytes (and so does not
    fail on both), and the digest does not collide on two given byte
    strings. *)
Definition Marshal_distinguishes (a b : JRule) : Prop :=
  a ≠ b → (json_Marshal_JRule a).1 ≠ (json_Marshal_JRule b).1.

Definition no_collision (x y : bytes) : Prop :=
  x ≠ y → sha256_Sum256 x ≠ sha256_Sum256 y.

(** ** Files as [ContentHash] meets them *)

(** The file does not exist: [os.Open] fails and [errors.Is] recognises
    [fs.ErrNotExist] in the error. *)
Definition missing (fsys : FS) (p : string) : Prop :=
  ∃ e, fsys p = OpenFails e ∧ errors.Is_chain e ErrNotExist = true.

(** The file opens and is read to its end. *)
Definition readable (fsys : FS) (p : string) : Prop :=
  ∃ content, fsys p = Opened content None.

(** Any other failure, with the error as [hashFile] reports it: opening
    fails for a reason that is not [fs.ErrNotExist], or reading fails. *)
Inductive read_failure (fsys : FS) (p : string) : error → Prop :=
| open_failure e :
    fsys p = OpenFails e → errors.Is_chain e ErrNotExist = false →
    read_failure fsys p (withMessage e ("opening " +:+ p))
| copy_failure content e :
    fsys p = Opened content (Some e) → errors.Is_chain e ErrNotExist = false →
    read_failure fsys p (withMessage e ("hashing " +:+ p)).

(** What a declared path contributes to the digest input: the digest of
    the file's bytes, or the null marker. *)
Definition digest_or_null (fsys : FS) (p : string) : option bytes :=
  match fsys p with
  | Opened content None => Some (sha256_Sum256 content)
  | _ => None
  end.

(** The struct that [ContentHash] marshals when no read fails. *)
Definition content_of (fsys : FS) (jr : JRule) : contentStruct :=
  {| cSources := foldl (λ m p, <[p := digest_or_null fsys p]> m) ∅ (Sources jr);
     cTargets := foldl (λ m p, <[p := digest_or_null fsys p]> m) ∅ (Targets jr);
     cCommand := Command jr |}.

(** The command that [Run] starts for a rule whose [Command] is [name]
    followed by [arg], with the verbosity flag [v]. *)
Definition spawned (jr : JRule) (name : string) (arg : list string) (v : bool) : Cmd :=
  {| Path := name;
     Args := name :: arg;
     Cmd_Dir := Dir jr;
     Stdout := if v then Some os_Stdout else None;
     Stderr := if v then Some os_Stderr else None |}.

(** The encoder of the content struct gives different structs different
    bytes. *)
Definition content_Marshal_distinguishes (a b : contentStruct) : Prop :=
  a ≠ b → (json_Marshal_content a).1 ≠ (json_Marshal_content b).1.

(** The same for two rules of the revision without [Dir]. *)
Definition same_identity0 (jr jr' : JRule0) : Prop :=
  Sources0 jr ≡ₚ Sources0 jr' ∧ Targets0 jr ≡ₚ Targets0 jr'
  ∧ Command0 jr = Command0 jr'.

(** The sorted copy that [RuleHash] of that revision marshals. *)
Definition RuleHash0_jr2 (jr : JRule0) : JRule0 :=
  {| Sources0 := sort_Strings (Sources0 jr);
     Targets0 := sort_Strings (Targets0 jr);
     Command0 := Command0 jr |}.

(** * Properties *)

(** ** The store *)

(** *** Single statements *)

Lemma ExecContext_missing_table (path : string) (q : sqlite.Query)
    (args : list sqlite.Arg) (fsys : sqlite.Files) :
  q ≠ sqlite.schema → fsys !! path = None →
  sqlite.ExecContext path q args fsys
  = ((None, Some (errorString "no such table: hashes")), fsys).
Proof.
  intros Hq Hp. unfold sqlite.ExecContext. rewrite Hp. by destruct q.
Qed.

Lemma ExecContext_upsert (path : string) (h : bytes) (secs : Z)
    (fsys : sqlite.Files) (t : sqlite.Table) :
  fsys !! path = Some t →
  sqlite.ExecContext path sqlite.q_Add [sqlite.ArgBlob h; sqlite.ArgInt secs] fsys
  = ((Some (sqlite.affected 1), None), <[path := <[h := secs]> t]> fsys).
Proof. intros Hp. unfold sqlite.ExecContext. by rewrite Hp. Qed.

(** The statement with two placeholders given one argument: the driver
    refuses it and the file is left as it was. *)
Lemma ExecContext_upsert_one_arg (path : string) (a : sqlite.Arg)
    (fsys : sqlite.Files) (t : sqlite.Table) :
  fsys !! path = Some t →
  sqlite.ExecContext path sqlite.q_Add [a] fsys
  = ((None, Some (errorString "not enough args to execute query")), fsys).
Proof. intros Hp. unfold sqlite.ExecContext. by rewrite Hp. Qed.

Lemma ExecContext_touch (path : string) (h : bytes) (secs : Z)
    (fsys : sqlite.Files) (t : sqlite.Table) :
  fsys !! path = Some t →
  sqlite.ExecContext path sqlite.q_Has [sqlite.ArgInt secs; sqlite.ArgBlob h] fsys
  = match t !! h with
    | Some _ => ((Some (sqlite.affected 1), None), <[path := <[h := secs]> t]> fsys)
    | None => ((Some (sqlite.affected 0), None), <[path := t]> fsys)
    end.
Proof.
  intros Hp. unfold sqlite.ExecContext. rewrite Hp. simpl.
  by destruct (t !! h).
Qed.

(** *** [Has] and [Add] on a file that has the table *)

Lemma DB_Has_spec (d : sqlite.DB) (now : Time) (h : bytes)
    (fsys : sqlite.Files) (t : sqlite.Table) :
  fsys !! sqlite.db d = Some t →
  sqlite.DB_Has d now h fsys
  = match t !! h with
    | Some _ => ((true, None), <[sqlite.db d := <[h := time.Unix now]> t]> fsys)
    | None => ((false, None), fsys)
    end.
Proof.
  intros Hp. unfold sqlite.DB_Has. rewrite (ExecContext_touch _ _ _ _ _ Hp).
  destruct (t !! h); simpl; [done|]. by rewrite insert_id.
Qed.

Lemma DB_Add_no_Keep (d : sqlite.DB) (now1 now2 : Time) (h : bytes)
    (fsys : sqlite.Files) (t : sqlite.Table) :
  fsys !! sqlite.db d = Some t → ¬ (sqlite.keep d > 0) →
  sqlite.DB_Add d now1 now2 h fsys
  = (None, <[sqlite.db d := <[h := time.Unix now1]> t]> fsys).
Proof.
  intros Hp Hk. unfold sqlite.DB_Add. rewrite (ExecContext_upsert _ _ _ _ _ Hp).
  by rewrite bool_decide_eq_false_2.
Qed.

Lemma DB_Add_Keep (d : sqlite.DB) (now1 now2 : Time) (h : bytes)
    (fsys : sqlite.Files) (t : sqlite.Table) :
  fsys !! sqlite.db d = Some t → sqlite.keep d > 0 →
  sqlite.DB_Add d now1 now2 h fsys
  = (Some (withMessage (errorString "not enough args to execute query")
                       "evicting expired database entries"),
     <[sqlite.db d := <[h := time.Unix now1]> t]> fsys).
Proof.
  intros Hp Hk. unfold sqlite.DB_Add. rewrite (ExecContext_upsert _ _ _ _ _ Hp).
  rewrite bool_decide_eq_true_2 by done.
  by rewrite (ExecContext_upsert_one_arg _ _ _ (<[h := time.Unix now1]> t))
    by apply lookup_insert_eq.
Qed.

Lemma DB_Add_missing_table (d : sqlite.DB) (now1 now2 : Time) (h : bytes)
    (fsys : sqlite.Files) :
  fsys !! sqlite.db d = None →
  sqlite.DB_Add d now1 now2 h fsys
  = (Some (withMessage (errorString "no such table: hashes")
                       "adding hash to database"), fsys).
Proof.
  intros Hp. unfold sqlite.DB_Add.
  by rewrite ExecContext_missing_table.
Qed.

(** What [Add] leaves in the files, whatever it returns. *)
Lemma DB_Add_files (d : sqlite.DB) (now1 now2 : Time) (h : bytes)
    (fsys : sqlite.Files) :
  (sqlite.DB_Add d now1 now2 h fsys).2
  = match fsys !! sqlite.db d with
    | Some t => <[sqlite.db d := <[h := time.Unix now1]> t]> fsys
    | None => fsys
    end.
Proof.
  destruct (fsys !! sqlite.db d) as [t|] eqn:Hp.
  - destruct (decide (sqlite.keep d > 0)).
    + by rewrite (DB_Add_Keep _ _ _ _ _ t).
    + by rewrite (DB_Add_no_Keep _ _ _ _ _ t).
  - by rewrite DB_Add_missing_table.
Qed.

Lemma DB_Has_files (d : sqlite.DB) (now : Time) (h : bytes) (fsys : sqlite.Files) :
  (sqlite.DB_Has d now h fsys).2
  = match fsys !! sqlite.db d with
    | Some t =>
        if t !! h is Some _
        then <[sqlite.db d := <[h := time.Unix now]> t]> fsys
        else fsys
    | None => fsys
    end.
Proof.
  destruct (fsys !! sqlite.db d) as [t|] eqn:Hp.
  - rewrite (DB_Has_spec _ _ _ _ t) by done. by destruct (t !! h).
  - unfold sqlite.DB_Has. by rewrite ExecContext_missing_table.
Qed.

Lemma Open_files (path : string) (opts : list sqlite.Option) (fsys : sqlite.Files) :
  (sqlite.Open path opts fsys).2
  = match fsys !! path with
    | Some _ => fsys
    | None => <[path := ∅]> fsys
    end.
Proof.
  unfold sqlite.Open, sqlite.ExecContext. by destruct (fsys !! path).
Qed.

(** Adding the same hash again at the same time changes nothing more. *)
Lemma DB_Add_idempotent (d : sqlite.DB) (now : Time) (h : bytes)
    (fsys : sqlite.Files) :
  (sqlite.DB_Add d now now h (sqlite.DB_Add d now now h fsys).2).2
  = (sqlite.DB_Add d now now h fsys).2.
Proof.
  rewrite (DB_Add_files d now now h fsys).
  destruct (fsys !! sqlite.db d) as [t|] eqn:Hp.
  - rewrite DB_Add_files, lookup_insert_eq. by rewrite !insert_insert_eq.
  - by rewrite DB_Add_files, Hp.
Qed.

(** *** Rows are never removed *)

Lemma stored_insert_row (path : string) (h h' : bytes) (secs : Z)
    (fsys : sqlite.Files) (t : sqlite.Table) :
  fsys !! path = Some t →
  stored path h fsys → stored path h (<[path := <[h' := secs]> t]> fsys).
Proof.
  intros Hp (t0 & Ht0 & Hh). exists (<[h' := secs]> t). split.
  - apply lookup_insert_eq.
  - assert (t0 = t) as -> by congruence.
    destruct (decide (h' = h)) as [->|Hne].
    + rewrite lookup_insert_eq. eauto.
    + by rewrite lookup_insert_ne.
Qed.

Lemma stored_insert_other (path path' : string) (h : bytes)
    (fsys : sqlite.Files) (t' : sqlite.Table) :
  path' ≠ path → stored path h fsys → stored path h (<[path' := t']> fsys).
Proof.
  intros Hne (t & Ht & Hh). exists t. by rewrite lookup_insert_ne.
Qed.

Lemma stored_insert (path path' : string) (h h' : bytes) (secs : Z)
    (fsys : sqlite.Files) (t' : sqlite.Table) :
  fsys !! path' = Some t' →
  stored path h fsys → stored path h (<[path' := <[h' := secs]> t']> fsys).
Proof.
  intros Hp' Hs. destruct (decide (path' = path)) as [->|Hne].
  - by apply stored_insert_row.
  - by apply stored_insert_other.
Qed.

Lemma store_step_stored (path : string) (h : bytes) (fsys fsys' : sqlite.Files) :
  store_step fsys fsys' → stored path h fsys → stored path h fsys'.
Proof.
  intros Hstep Hs. destruct Hstep as
    [p opts fsys r fsys' Heq | d now h' fsys r fsys' Heq
    | d now1 now2 h' fsys r fsys' Heq];
    apply (f_equal snd) in Heq; simpl in Heq; subst fsys'.
  - rewrite Open_files. destruct (fsys !! p) eqn:Hp; [done|].
    apply stored_insert_other; [|done].
    intros ->. destruct Hs as (t & Ht & _). congruence.
  - rewrite DB_Has_files. destruct (fsys !! sqlite.db d) as [t|] eqn:Hp; [|done].
    destruct (t !! h'); [|done]. by apply stored_insert.
  - rewrite DB_Add_files. destruct (fsys !! sqlite.db d) as [t|] eqn:Hp; [|done].
    by apply stored_insert.
Qed.

Lemma rtc_store_step_stored (path : string) (h : bytes) (fsys fsys' : sqlite.Files) :
  rtc store_step fsys fsys' → stored path h fsys → stored path h fsys'.
Proof. induction 1; eauto using store_step_stored. Qed.

Lemma DB_Add_success_stored (d : sqlite.DB) (now1 now2 : Time) (h : bytes)
    (fsys fsys' : sqlite.Files) :
  sqlite.DB_Add d now1 now2 h fsys = (None, fsys') →
  stored (sqlite.db d) h fsys'.
Proof.
  intros Heq. pose proof (DB_Add_files d now1 now2 h fsys) as Hf.
  rewrite Heq in Hf. simpl in Hf.
  destruct (fsys !! sqlite.db d) as [t|] eqn:Hp.
  - subst fsys'. exists (<[h := time.Unix now1]> t).
    rewrite !lookup_insert_eq. eauto.
  - by rewrite DB_Add_missing_table in Heq.
Qed.

Lemma DB_Has_stored (d : sqlite.DB) (now : Time) (h : bytes) (fsys : sqlite.Files) :
  stored (sqlite.db d) h fsys →
  ∃ fsys', sqlite.DB_Has d now h fsys = ((true, None), fsys').
Proof.
  intros (t & Ht & [secs Hh]). rewrite (DB_Has_spec _ _ _ _ t) by done.
  rewrite Hh. eauto.
Qed.

Lemma DB_Has_not_stored (d : sqlite.DB) (now : Time) (h : bytes)
    (fsys : sqlite.Files) :
  not_stored (sqlite.db d) h fsys →
  sqlite.DB_Has d now h fsys = ((false, None), fsys).
Proof.
  intros (t & Ht & Hh). rewrite (DB_Has_spec _ _ _ _ t) by done. by rewrite Hh.
Qed.

(** *** Retention *)

(** C1 (as the code behaves): with a retention window configured, an entry
    added at time [T] and not accessed again is still in the table, with
    its original timestamp, after an [Add] of another hash made at a time
    [now] at or beyond [T] plus the window: the second statement of [Add]
    is the insertion again, not the deletion, and removes nothing. *)
Theorem DB_Add_Keep_never_evicts (d : sqlite.DB) (T now : Time) (h h' : bytes)
    (fsys : sqlite.Files) (t : sqlite.Table) :
  fsys !! sqlite.db d = Some t →
  sqlite.keep d > 0 →
  h' ≠ h →
  T + sqlite.keep d ≤ now →
  ∃ t2, (sqlite.DB_Add d now now h' (sqlite.DB_Add d T T h fsys).2).2
          !! sqlite.db d = Some t2
        ∧ t2 !! h = Some (time.Unix T).
Proof.
  intros Hp Hk Hne _.
  rewrite (DB_Add_Keep d T T h fsys t) by done. simpl.
  rewrite (DB_Add_Keep _ _ _ _ _ (<[h := time.Unix T]> t))
    by (done || apply lookup_insert_eq).
  simpl. eexists. split; [apply lookup_insert_eq|].
  rewrite lookup_insert_ne by done. apply lookup_insert_eq.
Qed.

(** C2 (as the code behaves): on a file that has the table, [Add] of a
    store opened with [Keep] upserts the row and then returns an error,
    every time: its second [ExecContext] passes one argument to the
    statement with two placeholders. *)
Theorem DB_Add_Keep_returns_error (d : sqlite.DB) (now1 now2 : Time) (h : bytes)
    (fsys : sqlite.Files) (t : sqlite.Table) :
  fsys !! sqlite.db d = Some t →
  sqlite.keep d > 0 →
  sqlite.DB_Add d now1 now2 h fsys
  = (Some (withMessage (errorString "not enough args to execute query")
                       "evicting expired database entries"),
     <[sqlite.db d := <[h := time.Unix now1]> t]> fsys).
Proof. apply DB_Add_Keep. Qed.

(** C5: after an [Add] of [h] that returned no error, and after any
    further history of the database files (opens, [Has] and [Add] calls
    through any handle, at any time), [Has] of [h] through a handle on the
    same file returns true and no error; and [Has] of a hash that has no
    row returns false, no error, and leaves the files as they are. *)
Theorem Has_after_successful_Add (d d' : sqlite.DB) (now1 now2 now : Time)
    (h h' : bytes) (fsys fsys1 fsys2 : sqlite.Files) :
  sqlite.DB_Add d now1 now2 h fsys = (None, fsys1) →
  rtc store_step fsys1 fsys2 →
  sqlite.db d' = sqlite.db d →
  (∃ fsys3, sqlite.DB_Has d' now h fsys2 = ((true, None), fsys3)) ∧
  ((∀ t, fsys2 !! sqlite.db d = Some t → t !! h' = None) →
   sqlite.DB_Has d' now h' fsys2 = ((false, None), fsys2)).
Proof.
  intros Hadd Hsteps Hdb.
  assert (stored (sqlite.db d') h fsys2) as Hs.
  { rewrite Hdb. eapply rtc_store_step_stored; [done|].
    by eapply DB_Add_success_stored. }
  split.
  - by apply DB_Has_stored.
  - intros Habs. apply DB_Has_not_stored.
    destruct Hs as (t & Ht & _). exists t. split; [done|].
    apply Habs. by rewrite <- Hdb.
Qed.

(** ** The skip engine *)

Section skip_engine.

Context {W D R : Type} `{!Host W, !DB W D, !Rule W R}.

#[local] Ltac run_Fn :=
  unfold Fn_Run, mbind, Eff_bind, mret, Eff_ret, call_Verbose, call_Printf;
  simpl; unfold logged_as; simpl.

(** Watching the calls changes neither the result nor the world. *)
Lemma Fn_Run_spy (f : Fn D R) (w : W) (cs : list Call) :
  ((Fn_Run (spy_Fn f) (w, cs)).1, (Fn_Run (spy_Fn f) (w, cs)).2.1) = Fn_Run f w.
Proof.
  run_Fn.
  destruct (Rule_ContentHash (Fn_Rule f) w) as [[[h [e|]]|msg] w1]; simpl; try done.
  destruct (DB_Has (Fn_DB f) h w1) as [[[ok [e|]]|msg] w2]; simpl; try done.
  destruct ok; simpl.
  { by destruct (mg_Verbose w2). }
  destruct (Rule_Run (Fn_Rule f) w2) as [[[e|]|msg] w3]; simpl; try done.
  destruct (Rule_ContentHash (Fn_Rule f) w3) as [[[h' [e|]]|msg] w4]; simpl; try done.
  by destruct (DB_Add (Fn_DB f) h' w4) as [r w5].
Qed.

Lemma Fn_Run_fails (f : Fn D R) (w w' : W) (e : error) (ctx : string) :
  build_fails f w e ctx w' →
  Fn_Run f w = (Val (Some (withMessage e ctx)), w').
Proof.
  intros Hf. destruct Hf as [h e w1 H1 | h w1 w2 e w3 H1 H2 H3
                            | h w1 w2 w3 h' e w4 H1 H2 H3 H4];
    run_Fn; rewrite H1; simpl; try done; rewrite H2; simpl;
    rewrite H3; simpl; try done; by rewrite H4.
Qed.

Lemma Fn_Run_fails_calls (f : Fn D R) (w w' : W) (e : error) (ctx : string) :
  build_fails f w e ctx w' →
  ∃ calls, (Fn_Run (spy_Fn f) (w, [])).2 = (w', calls)
           ∧ ∀ h, CallAdd h ∉ calls.
Proof.
  intros Hf. destruct Hf as [h e w1 H1 | h w1 w2 e w3 H1 H2 H3
                            | h w1 w2 w3 h' e w4 H1 H2 H3 H4];
    run_Fn; rewrite H1; simpl; [|rewrite H2; simpl; rewrite H3; simpl..];
    [| |rewrite H4; simpl]; eexists; (split; [reflexivity|]);
    intros h0; rewrite ?not_elem_of_cons; repeat split;
    (discriminate || apply not_elem_of_nil).
Qed.

Lemma Fn_Run_hit (f : Fn D R) (w w1 w2 : W) (h : bytes) :
  Rule_ContentHash (Fn_Rule f) w = (Val (h, None), w1) →
  DB_Has (Fn_DB f) h w1 = (Val (true, None), w2) →
  Fn_Run (spy_Fn f) (w, [])
  = (Val None,
     (if mg_Verbose w2
      then log_Printf (Rule_String (Fn_Rule f) +:+ " up to date") w2
      else w2,
      [CallContentHash; CallHas h])).
Proof.
  intros H1 H2. run_Fn. rewrite H1. simpl. rewrite H2. simpl.
  by destruct (mg_Verbose w2).
Qed.

(** C3: when the first content hash, the build action or the second
    content hash returns an error, [Fn.Run] returns that error wrapped
    with the name of the phase, and the invocation makes no call of
    [Add] on the store. *)
Theorem Fn_Run_failure_never_Adds (f : Fn D R) (w w' : W) (e : error)
    (ctx : string) :
  build_fails f w e ctx w' →
  Fn_Run f w = (Val (Some (withMessage e ctx)), w') ∧
  ∃ calls,
    Fn_Run (spy_Fn f) (w, []) = (Val (Some (withMessage e ctx)), (w', calls))
    ∧ ∀ h, CallAdd h ∉ calls.
Proof.
  intros Hf. pose proof (Fn_Run_fails _ _ _ _ _ Hf) as Hres.
  split; [done|].
  destruct (Fn_Run_fails_calls _ _ _ _ _ Hf) as (calls & Hcalls & Hno).
  exists calls. split; [|done].
  pose proof (Fn_Run_spy f w []) as Hspy. rewrite Hres in Hspy.
  destruct (Fn_Run (spy_Fn f) (w, [])) as [r [w0 cs]].
  simpl in *. congruence.
Qed.

(** C4: when the first content hash is computed and the store answers
    that it has it, [Fn.Run] returns nil after exactly two calls, the
    content hash and the membership check: the build action is not run
    and nothing is added to the store.  The world is the one the store
    left, plus the log line when verbose. *)
Theorem Fn_Run_cache_hit (f : Fn D R) (w w1 w2 : W) (h : bytes) :
  Rule_ContentHash (Fn_Rule f) w = (Val (h, None), w1) →
  DB_Has (Fn_DB f) h w1 = (Val (true, None), w2) →
  let w' := if mg_Verbose w2
            then log_Printf (Rule_String (Fn_Rule f) +:+ " up to date") w2
            else w2 in
  Fn_Run f w = (Val None, w') ∧
  Fn_Run (spy_Fn f) (w, []) = (Val None, (w', [CallContentHash; CallHas h])).
Proof.
  intros H1 H2 w'. pose proof (Fn_Run_hit f w w1 w2 h H1 H2) as Hhit.
  split; [|done].
  rewrite <- (Fn_Run_spy f w []). by rewrite Hhit.
Qed.

End skip_engine.

(** ** The rule hash *)

(** *** The order of [sort.Strings] *)

Lemma string_compare_le_trans (a b c : string) :
  String.compare a b ≠ Gt → String.compare b c ≠ Gt → String.compare a c ≠ Gt.
Proof.
  revert b c. induction a as [|x a IH]; intros [|y b] [|z c]; simpl; try done.
  unfold Ascii.compare.
  destruct (N.compare_spec (Ascii.N_of_ascii x) (Ascii.N_of_ascii y)) as [Hxy|Hxy|Hxy];
    destruct (N.compare_spec (Ascii.N_of_ascii y) (Ascii.N_of_ascii z)) as [Hyz|Hyz|Hyz];
    destruct (N.compare_spec (Ascii.N_of_ascii x) (Ascii.N_of_ascii z)) as [Hxz|Hxz|Hxz];
    try done; try lia.
  apply IH.
Qed.

Lemma string_le_compare (a b : string) : string_le a b ↔ String.compare a b ≠ Gt.
Proof. unfold string_le, String.leb. by destruct (String.compare a b). Qed.

#[local] Instance string_le_trans : Transitive string_le.
Proof.
  intros a b c. rewrite !string_le_compare. apply string_compare_le_trans.
Qed.

#[local] Instance string_le_antisymm : AntiSymm (=) string_le.
Proof. intros a b. apply String.leb_antisym. Qed.

#[local] Instance string_le_total : Total string_le.
Proof. intros a b. apply String.leb_total. Qed.

Lemma sort_Strings_Sorted (l : list string) : Sorted string_le (sort_Strings l).
Proof. apply (Sorted_merge_sort string_le). Qed.

Lemma sort_Strings_Permutation (l : list string) : sort_Strings l ≡ₚ l.
Proof. apply (merge_sort_Permutation string_le). Qed.

(** The sorted list is the only sorted arrangement of the strings, so the
    algorithm behind [sort.Strings] does not matter. *)
Lemma sort_Strings_unique (l l' : list string) :
  Sorted string_le l' → l' ≡ₚ l → l' = sort_Strings l.
Proof.
  intros Hs Hp. apply (Sorted_unique string_le); [done|apply sort_Strings_Sorted|].
  by rewrite sort_Strings_Permutation.
Qed.

Lemma sort_Strings_eq_iff (l l' : list string) :
  sort_Strings l = sort_Strings l' ↔ l ≡ₚ l'.
Proof.
  split.
  - intros Heq. rewrite <- (sort_Strings_Permutation l), Heq.
    apply sort_Strings_Permutation.
  - intros Hp. apply sort_Strings_unique; [apply sort_Strings_Sorted|].
    by rewrite sort_Strings_Permutation.
Qed.

(** *** What the hashed struct keeps of a rule *)

Lemma RuleHash_jr2_eq_iff (jr jr' : JRule) :
  RuleHash_jr2 jr = RuleHash_jr2 jr' ↔ same_identity jr jr'.
Proof.
  unfold RuleHash_jr2, same_identity. rewrite <- !sort_Strings_eq_iff. split.
  - intros [= Hs Ht Hc]. done.
  - intros (Hs & Ht & Hc). by rewrite Hs, Ht, Hc.
Qed.

(** Changing one element of a list never gives a rearrangement of it. *)
Lemma insert_not_Permutation (l : list string) (i : nat) (x y : string) :
  l !! i = Some x → y ≠ x → ¬ (<[i := y]> l ≡ₚ l).
Proof.
  intros Hi Hne Hp.
  pose proof (proj1 (Permutation_count_occ (λ a b : string, decide (a = b)) _ _)
                Hp y) as Hc. clear Hp. rename Hc into Hp.
  rewrite insert_take_drop in Hp by (by eapply lookup_lt_Some).
  rewrite <- (take_drop_middle l i x) in Hp at 3 by done.
  rewrite !count_occ_app in Hp. simpl in Hp.
  rewrite (decide_True (P := y = y)) in Hp by done.
  rewrite (decide_False (P := x = y)) in Hp by done.
  lia.
Qed.

Lemma JRule_RuleHash_same_identity (jr jr' : JRule) :
  same_identity jr jr' → JRule_RuleHash jr = JRule_RuleHash jr'.
Proof.
  intros Hs. unfold JRule_RuleHash. by rewrite (proj2 (RuleHash_jr2_eq_iff jr jr') Hs).
Qed.

Lemma JRule_RuleHash_sensitive (jr jr' : JRule) :
  Marshal_distinguishes (RuleHash_jr2 jr) (RuleHash_jr2 jr') →
  no_collision (json_Marshal_JRule (RuleHash_jr2 jr)).1
               (json_Marshal_JRule (RuleHash_jr2 jr')).1 →
  ¬ same_identity jr jr' →
  JRule_RuleHash jr ≠ JRule_RuleHash jr'.
Proof.
  intros Hm Hc Hns. unfold JRule_RuleHash.
  rewrite <- RuleHash_jr2_eq_iff in Hns.
  specialize (Hc (Hm Hns)).
  by destruct (json_Marshal_JRule (RuleHash_jr2 jr)),
              (json_Marshal_JRule (RuleHash_jr2 jr')).
Qed.

(** C6: the rule hash is the same for rules that list the same sources
    and the same targets in any order and have the same command; it is
    computed without reading or changing the world, so file contents
    cannot affect it; it differs for two rules that do not have the same
    identity, as long as the encoder tells the two sorted structs apart
    and the digest does not collide on the two encodings; and replacing
    one source path, one target path or one command token by a different
    string always gives a rule of a different identity. *)
Theorem RuleHash_identity (jr jr' : JRule) :
  (same_identity jr jr' → JRule_RuleHash jr = JRule_RuleHash jr') ∧
  (∀ w : World, Rule_RuleHash jr w = (Val (JRule_RuleHash jr), w)) ∧
  (Marshal_distinguishes (RuleHash_jr2 jr) (RuleHash_jr2 jr') →
   no_collision (json_Marshal_JRule (RuleHash_jr2 jr)).1
                (json_Marshal_JRule (RuleHash_jr2 jr')).1 →
   ¬ same_identity jr jr' →
   JRule_RuleHash jr ≠ JRule_RuleHash jr') ∧
  (∀ (i : nat) (p p' : string), p' ≠ p →
     (Sources jr !! i = Some p →
      ¬ same_identity (with_Sources jr (<[i := p']> (Sources jr))) jr) ∧
     (Targets jr !! i = Some p →
      ¬ same_identity (with_Targets jr (<[i := p']> (Targets jr))) jr) ∧
     (Command jr !! i = Some p →
      ¬ same_identity (with_Command jr (<[i := p']> (Command jr))) jr)).
Proof.
  split; [apply JRule_RuleHash_same_identity|].
  split; [done|].
  split; [apply JRule_RuleHash_sensitive|].
  intros i p p' Hne. unfold same_identity. simpl. repeat split.
  - intros Hi (Hp & _). by eapply insert_not_Permutation.
  - intros Hi (_ & Hp & _). by eapply insert_not_Permutation.
  - intros Hi (_ & _ & Hc).
    apply (f_equal (λ l, l !! i)) in Hc.
    rewrite list_lookup_insert_eq in Hc by (by eapply lookup_lt_Some).
    congruence.
Qed.

(** ** The content hash *)

Lemma Is_chain_withMessage (e : error) (msg : string) :
  errors.Is_chain (withMessage e msg) ErrNotExist = errors.Is_chain e ErrNotExist.
Proof. done. Qed.

(** *** [hashFile] by kind of file *)

Lemma hashFile_missing (fsys : FS) (p : string) :
  missing fsys p →
  ∃ e, hashFile fsys p = (None, Some e) ∧ errors.Is_chain e ErrNotExist = true.
Proof.
  intros (e & Hp & His). unfold hashFile. rewrite Hp. simpl. eauto.
Qed.

Lemma hashFile_readable (fsys : FS) (p : string) :
  readable fsys p → hashFile fsys p = (digest_or_null fsys p, None).
Proof.
  intros (c & Hp). unfold hashFile, digest_or_null. by rewrite Hp.
Qed.

Lemma hashFile_read_failure (fsys : FS) (p : string) (e : error) :
  read_failure fsys p e ↔
  hashFile fsys p = (None, Some e) ∧ errors.Is_chain e ErrNotExist = false.
Proof.
  unfold hashFile. split.
  - intros [e0 Hp His | c e0 Hp His]; rewrite Hp; done.
  - destruct (fsys p) as [e0|c [e0|]] eqn:Hp; intros [[= <-] His].
    + by apply open_failure.
    + by eapply copy_failure.
Qed.

(** *** [fillWithFileHashes] *)

Lemma fillWithFileHashes_ext (fsys fsys' : FS) (fs : list string)
    (hashes : gmap string (option bytes)) :
  (∀ p, p ∈ fs → fsys p = fsys' p) →
  fillWithFileHashes fsys fs hashes = fillWithFileHashes fsys' fs hashes.
Proof.
  revert hashes. induction fs as [|file rest IH]; intros hashes Hagree; [done|].
  simpl. unfold hashFile. rewrite <- (Hagree file) by apply list_elem_of_here.
  assert (∀ p, p ∈ rest → fsys p = fsys' p) as Hrest
    by (intros p Hp; apply Hagree; by apply list_elem_of_further).
  destruct (fsys file) as [e|c [e|]]; simpl;
    repeat case_match; auto.
Qed.

Lemma fillWithFileHashes_ok (fsys : FS) (fs : list string)
    (hashes : gmap string (option bytes)) :
  (∀ p, p ∈ fs → missing fsys p ∨ readable fsys p) →
  fillWithFileHashes fsys fs hashes
  = (foldl (λ m p, <[p := digest_or_null fsys p]> m) hashes fs, None).
Proof.
  revert hashes. induction fs as [|file rest IH]; intros hashes Hok; [done|].
  assert (∀ p, p ∈ rest → missing fsys p ∨ readable fsys p) as Hrest
    by (intros p Hp; apply Hok; by apply list_elem_of_further).
  simpl. destruct (Hok file) as [Hm|Hr]; [apply list_elem_of_here|..].
  - destruct (hashFile_missing _ _ Hm) as (e & -> & His). simpl. rewrite His.
    rewrite IH by done. do 2 f_equal. f_equal.
    destruct Hm as (e0 & Hp & _). unfold digest_or_null. by rewrite Hp.
  - rewrite (hashFile_readable _ _ Hr). simpl. by rewrite IH.
Qed.

Lemma fillWithFileHashes_error (fsys : FS) (fs : list string)
    (hashes hashes' : gmap string (option bytes)) (e : error) :
  fillWithFileHashes fsys fs hashes = (hashes', Some e) →
  ∃ q e', q ∈ fs ∧ read_failure fsys q e'
          ∧ e = withMessage e' ("computing hash of " +:+ q).
Proof.
  revert hashes. induction fs as [|file rest IH]; intros hashes; [done|].
  simpl. destruct (hashFile fsys file) as [h [e0|]] eqn:Hh; simpl.
  - destruct (errors.Is_chain e0 ErrNotExist) eqn:His.
    + intros Hrec. destruct (IH _ Hrec) as (q & e' & Hq & Hf & ->).
      exists q, e'. split; [by apply list_elem_of_further|done].
    + intros [= _ <-]. exists file, e0. split; [apply list_elem_of_here|].
      split; [|done]. apply hashFile_read_failure. split; [|done].
      rewrite Hh. f_equal. unfold hashFile in Hh.
      by destruct (fsys file) as [?|? [?|]]; simplify_eq.
  - intros Hrec. destruct (IH _ Hrec) as (q & e' & Hq & Hf & ->).
    exists q, e'. split; [by apply list_elem_of_further|done].
Qed.

Lemma fillWithFileHashes_no_error (fsys : FS) (fs : list string)
    (hashes hashes' : gmap string (option bytes)) (p : string) (e : error) :
  fillWithFileHashes fsys fs hashes = (hashes', None) →
  p ∈ fs → ¬ read_failure fsys p e.
Proof.
  revert hashes. induction fs as [|file rest IH]; intros hashes Hfill Hp Hf.
  { by apply elem_of_nil in Hp. }
  apply hashFile_read_failure in Hf as [Hh His].
  simpl in Hfill. apply elem_of_cons in Hp as [->|Hp].
  - rewrite Hh in Hfill. simpl in Hfill. by rewrite His in Hfill.
  - destruct (hashFile fsys file) as [h0 [e0|]]; simpl in Hfill.
    + destruct (errors.Is_chain e0 ErrNotExist); [|done].
      eapply IH; [done..|]. by apply hashFile_read_failure.
    + eapply IH; [done..|]. by apply hashFile_read_failure.
Qed.

(** Every declared path has an entry, and it is what the path contributes. *)
Lemma filled_lookup (fsys : FS) (fs : list string)
    (hashes : gmap string (option bytes)) (p : string) :
  p ∈ fs →
  foldl (λ m q, <[q := digest_or_null fsys q]> m) hashes fs !! p
  = Some (digest_or_null fsys p).
Proof.
  intros Hp. induction fs as [|file rest IH] using rev_ind.
  { by apply elem_of_nil in Hp. }
  rewrite foldl_app. simpl.
  destruct (decide (file = p)) as [->|Hne].
  - apply lookup_insert_eq.
  - rewrite lookup_insert_ne by done. apply IH.
    apply elem_of_app in Hp as [Hp|Hp]; [done|].
    apply list_elem_of_singleton in Hp. congruence.
Qed.

(** *** [ContentHash] *)

Lemma JRule_ContentHash_world (jr : JRule) (w : World) :
  (JRule_ContentHash jr w).2 = w.
Proof. unfold JRule_ContentHash. by repeat case_match. Qed.

Lemma JRule_ContentHash_returns (jr : JRule) (w : World) :
  ∃ h err, (JRule_ContentHash jr w).1 = Val (h, err).
Proof. unfold JRule_ContentHash. repeat case_match; simpl; eauto. Qed.

Lemma JRule_ContentHash_ext (jr : JRule) (w w' : World) :
  (∀ p, p ∈ Sources jr ++ Targets jr → files w p = files w' p) →
  (JRule_ContentHash jr w).1 = (JRule_ContentHash jr w').1.
Proof.
  intros Hagree. unfold JRule_ContentHash.
  rewrite (fillWithFileHashes_ext (files w) (files w') (Sources jr))
    by (intros p Hp; apply Hagree, elem_of_app; by left).
  rewrite (fillWithFileHashes_ext (files w) (files w') (Targets jr))
    by (intros p Hp; apply Hagree, elem_of_app; by right).
  by repeat case_match.
Qed.

Lemma JRule_ContentHash_ok (jr : JRule) (w : World) :
  (∀ p, p ∈ Sources jr ++ Targets jr → missing (files w) p ∨ readable (files w) p) →
  JRule_ContentHash jr w
  = (Val match json_Marshal_content (content_of (files w) jr) with
         | (j, None) => (sha256_Sum256 j, None)
         | (_, Some e) => ([], Some (withMessage e "in JSON marshaling"))
         end, w).
Proof.
  intros Hok. unfold JRule_ContentHash.
  rewrite !fillWithFileHashes_ok
    by (intros p Hp; apply Hok, elem_of_app; auto).
  fold (content_of (files w) jr).
  by destruct (json_Marshal_content (content_of (files w) jr)) as [j [e|]].
Qed.

Lemma JRule_ContentHash_read_failure (jr : JRule) (w : World) (p : string)
    (e : error) :
  p ∈ Sources jr ++ Targets jr → read_failure (files w) p e →
  ∃ q e' ctx,
    q ∈ Sources jr ++ Targets jr ∧ read_failure (files w) q e' ∧
    JRule_ContentHash jr w
    = (Val ([], Some (withMessage (withMessage e' ("computing hash of " +:+ q)) ctx)),
       w).
Proof.
  intros Hp Hf. unfold JRule_ContentHash.
  destruct (fillWithFileHashes (files w) (Sources jr) ∅) as [srcs [es|]] eqn:Hs.
  { destruct (fillWithFileHashes_error _ _ _ _ _ Hs) as (q & e' & Hq & Hfq & ->).
    exists q, e', "computing source hash(es)".
    split; [apply elem_of_app; by left|done]. }
  destruct (fillWithFileHashes (files w) (Targets jr) ∅) as [tgts [et|]] eqn:Ht.
  { destruct (fillWithFileHashes_error _ _ _ _ _ Ht) as (q & e' & Hq & Hfq & ->).
    exists q, e', "computing target hash(es)".
    split; [apply elem_of_app; by right|done]. }
  exfalso. apply elem_of_app in Hp as [Hp|Hp].
  - by eapply (fillWithFileHashes_no_error _ _ _ _ _ _ Hs).
  - by eapply (fillWithFileHashes_no_error _ _ _ _ _ _ Ht).
Qed.

(** C7: the content hash is a function of the rule and of what opening
    and reading its declared sources and targets yields.  Two worlds that
    agree on those paths give the same result (digest or error), the call
    itself leaves the world as it was, so calling again gives the same
    result again, and the call always returns. *)
Theorem ContentHash_deterministic (jr : JRule) (w w' : World) :
  (∀ p, p ∈ Sources jr ++ Targets jr → files w p = files w' p) →
  (JRule_ContentHash jr w).1 = (JRule_ContentHash jr w').1 ∧
  (JRule_ContentHash jr w).2 = w ∧
  JRule_ContentHash jr (JRule_ContentHash jr w).2 = JRule_ContentHash jr w ∧
  ∃ h err, (JRule_ContentHash jr w).1 = Val (h, err).
Proof.
  intros Hagree. split; [by apply JRule_ContentHash_ext|].
  split; [apply JRule_ContentHash_world|].
  split; [by rewrite JRule_ContentHash_world|].
  apply JRule_ContentHash_returns.
Qed.

(** C8: when every declared source and target either does not exist or
    can be read, no file error arises: a path that does not exist is
    entered with the null marker in the struct that is marshalled, and
    the content hash is the digest of that struct's encoding.  When some
    declared path fails in any other way, [ContentHash] returns an error
    (and no digest) that wraps the failure of such a path. *)
Theorem ContentHash_missing_vs_read_failure (jr : JRule) (w : World) :
  ((∀ p, p ∈ Sources jr ++ Targets jr →
         missing (files w) p ∨ readable (files w) p) →
   (∀ p, p ∈ Sources jr → missing (files w) p →
         cSources (content_of (files w) jr) !! p = Some None) ∧
   (∀ p, p ∈ Targets jr → missing (files w) p →
         cTargets (content_of (files w) jr) !! p = Some None) ∧
   JRule_ContentHash jr w
   = (Val match json_Marshal_content (content_of (files w) jr) with
          | (j, None) => (sha256_Sum256 j, None)
          | (_, Some e) => ([], Some (withMessage e "in JSON marshaling"))
          end, w)) ∧
  (∀ p e, p ∈ Sources jr ++ Targets jr → read_failure (files w) p e →
     ∃ q e' ctx,
       q ∈ Sources jr ++ Targets jr ∧ read_failure (files w) q e' ∧
       JRule_ContentHash jr w
       = (Val ([], Some (withMessage
                           (withMessage e' ("computing hash of " +:+ q)) ctx)),
          w)).
Proof.
  split; [|apply JRule_ContentHash_read_failure].
  intros Hok. split; [|split; [|by apply JRule_ContentHash_ok]].
  - intros p Hp (e & Hm & _). unfold content_of. simpl.
    rewrite filled_lookup by done. unfold digest_or_null. by rewrite Hm.
  - intros p Hp (e & Hm & _). unfold content_of. simpl.
    rewrite filled_lookup by done. unfold digest_or_null. by rewrite Hm.
Qed.

(** ** Running the command *)

#[local] Ltac run_Eff :=
  unfold mbind, Eff_bind, mret, Eff_ret, call_Verbose, call_Printf, index,
    slice_from; simpl.

Lemma JRule_Run_nonempty (jr : JRule) (w : World) (name : string)
    (arg : list string) :
  Command jr = name :: arg →
  JRule_Run jr w
  = (let w0 := if verbose w
               then add_logged w ("Running " +:+ name +:+ " " +:+ strings_Join arg " ")
               else w in
     (Val (Cmd_Run (spawned jr name arg (verbose w)) w0).1,
      (Cmd_Run (spawned jr name arg (verbose w)) w0).2)).
Proof.
  intros Hc. unfold JRule_Run. run_Eff. rewrite Hc. simpl.
  rewrite drop_0. unfold spawned.
  destruct (verbose w); simpl; by destruct (Cmd_Run _ _).
Qed.

(** Without the precondition the first index expression panics. *)
Lemma JRule_Run_empty_Command (jr : JRule) (w : World) :
  Command jr = [] → JRule_Run jr w = (Panic "index out of range", w).
Proof. intros Hc. unfold JRule_Run. run_Eff. by rewrite Hc. Qed.

(** C10: for a rule whose [Command] is not empty, [Command[0]] and
    [Command[1:]] are in bounds, [Run] does not panic, and what it runs is
    the command with executable [Command[0]], arguments [Command[1:]] and
    the rule's [Dir] as working directory (with the output streams
    connected, and a log line written first, when verbose); [Run]
    returns what that command returns. *)
Theorem JRule_Run_spawns_Command (jr : JRule) (w : World) (name : string)
    (arg : list string) :
  Command jr = name :: arg →
  (Command jr !! 0%nat = Some name ∧ drop 1 (Command jr) = arg) ∧
  JRule_Run jr w
  = (let w0 := if verbose w
               then add_logged w ("Running " +:+ name +:+ " " +:+ strings_Join arg " ")
               else w in
     (Val (Cmd_Run (spawned jr name arg (verbose w)) w0).1,
      (Cmd_Run (spawned jr name arg (verbose w)) w0).2)).
Proof.
  intros Hc. split; [by rewrite Hc|]. by apply JRule_Run_nonempty.
Qed.

(** ** The working directory *)

Lemma JRule_ContentHash_with_Dir (jr : JRule) (dir : string) (w : World) :
  JRule_ContentHash (with_Dir jr dir) w = JRule_ContentHash jr w.
Proof. done. Qed.

Lemma DB_Has_true_stored (d : sqlite.DB) (now : Time) (h : bytes)
    (fsys fsys' : sqlite.Files) (err : option error) :
  sqlite.DB_Has d now h fsys = ((true, err), fsys') → stored (sqlite.db d) h fsys'.
Proof.
  destruct (fsys !! sqlite.db d) as [t|] eqn:Hp.
  - rewrite (DB_Has_spec _ _ _ _ t) by done.
    destruct (t !! h) as [secs|] eqn:Hh; [|done]. intros [= _ <-].
    exists (<[h := time.Unix now]> t). rewrite !lookup_insert_eq. eauto.
  - unfold sqlite.DB_Has. by rewrite ExecContext_missing_table.
Qed.

(** After an invocation that returned nil, the store has the content hash
    of the files as they now are. *)
Lemma Fn_Run_success_recorded (d : sqlite.DB) (jr : JRule) (w w1 : World) :
  Fn_Run {| Fn_DB := d; Fn_Rule := jr |} w = (Val None, w1) →
  ∃ h, (JRule_ContentHash jr w1).1 = Val (h, None)
       ∧ stored (sqlite.db d) h (dbs w1).
Proof.
  unfold Fn_Run. run_Eff.
  pose proof (JRule_ContentHash_world jr w) as Hw.
  destruct (JRule_ContentHash jr w) as [[[h [e|]]|msg] w0] eqn:H1; simpl; try done.
  simpl in Hw. subst w0.
  destruct (sqlite.DB_Has d (now w) h (dbs w)) as [[ok err] fsys'] eqn:H2. simpl.
  destruct err as [e|]; [done|]. destruct ok; simpl.
  - intros Hres. exists h. split.
    + rewrite <- (JRule_ContentHash_ext jr w w1); [by rewrite H1|].
      intros p _. destruct (verbose w); by simplify_eq.
    + apply DB_Has_true_stored in H2. destruct (verbose w); by simplify_eq.
  - destruct (JRule_Run jr (set_dbs w fsys')) as [[[e|]|msg] w3] eqn:H3; simpl;
      try done.
    pose proof (JRule_ContentHash_world jr w3) as Hw3.
    destruct (JRule_ContentHash jr w3) as [[[h' [e|]]|msg] w4] eqn:H4; simpl;
      try done.
    simpl in Hw3. subst w4.
    destruct (sqlite.DB_Add d (now w3) (now w3) h' (dbs w3)) as [r fsys''] eqn:H5.
    intros [= -> <-]. exists h'. split.
    + rewrite <- (JRule_ContentHash_ext jr w3 (set_dbs w3 fsys'')); [|done].
      by rewrite H4.
    + by eapply DB_Add_success_stored.
Qed.

(** C9: [Dir] enters neither hash.  A rule that differs from another
    only in [Dir] has the same rule hash and, in any world, the same
    content hash.  So once an invocation for a rule has returned nil,
    an invocation for the same sources, targets and command with any
    other working directory, on the same state of the declared files and
    any later state of the same store, finds its content hash in the
    store and returns nil after the content hash and the membership check
    alone: the command is not run in the other directory. *)
Theorem Dir_not_hashed (jr : JRule) (dir : string) :
  JRule_RuleHash (with_Dir jr dir) = JRule_RuleHash jr ∧
  (∀ w, JRule_ContentHash (with_Dir jr dir) w = JRule_ContentHash jr w) ∧
  (∀ (d d' : sqlite.DB) (w w1 w2 : World),
     Fn_Run {| Fn_DB := d; Fn_Rule := jr |} w = (Val None, w1) →
     (∀ p, p ∈ Sources jr ++ Targets jr → files w2 p = files w1 p) →
     rtc store_step (dbs w1) (dbs w2) →
     sqlite.db d' = sqlite.db d →
     ∃ h w3,
       Fn_Run (spy_Fn {| Fn_DB := d'; Fn_Rule := with_Dir jr dir |}) (w2, [])
       = (Val None, (w3, [CallContentHash; CallHas h]))
       ∧ files w3 = files w2).
Proof.
  split; [done|]. split; [done|].
  intros d d' w w1 w2 Hrun Hfiles Hsteps Hdb.
  destruct (Fn_Run_success_recorded _ _ _ _ Hrun) as (h & Hh & Hs).
  assert (stored (sqlite.db d') h (dbs w2)) as Hs2
    by (rewrite Hdb; by eapply rtc_store_step_stored).
  destruct (DB_Has_stored d' (now w2) h (dbs w2) Hs2) as (fsys3 & Hhas).
  assert (JRule_ContentHash (with_Dir jr dir) w2 = (Val (h, None), w2)) as Hc.
  { rewrite JRule_ContentHash_with_Dir.
    rewrite <- (JRule_ContentHash_world jr w2) at 2.
    rewrite <- Hh, <- (JRule_ContentHash_ext jr w2 w1) by done.
    by destruct (JRule_ContentHash jr w2). }
  exists h. eexists. split.
  - apply (Fn_Run_hit (W := World)
             {| Fn_DB := d'; Fn_Rule := with_Dir jr dir |} w2 w2
             (set_dbs w2 fsys3) h); [done|].
    simpl. by rewrite Hhas.
  - simpl. by destruct (verbose w2).
Qed.

(** * Further properties *)

(** ** The store, operation by operation *)




(** X3: through a handle without a retention window (zero or negative),
    on a file that has the table, [Add] returns nil, and a [Has] of the
    same hash made afterwards, at any time and through any handle on the
    file, returns true with no error and stamps the row with the time of
    the [Has]. *)
Theorem Add_then_Has_without_Keep (d d' : sqlite.DB) (now1 now2 now : Time)
    (h : bytes) (fsys : sqlite.Files) (t : sqlite.Table) :
  fsys !! sqlite.db d = Some t →
  ¬ (sqlite.keep d > 0) →
  sqlite.db d' = sqlite.db d →
  (sqlite.DB_Add d now1 now2 h fsys).1 = None ∧
  sqlite.DB_Has d' now h (sqlite.DB_Add d now1 now2 h fsys).2
  = ((true, None), <[sqlite.db d := <[h := time.Unix now]> t]> fsys).
Proof.
  intros Hp Hk Hdb. rewrite (DB_Add_no_Keep _ _ _ _ _ t) by done. simpl.
  split; [done|].
  rewrite (DB_Has_spec d' now h _ (<[h := time.Unix now1]> t))
    by (rewrite Hdb; apply lookup_insert_eq).
  rewrite lookup_insert_eq, Hdb. by rewrite !insert_insert_eq.
Qed.

(** X4: [Has] changes at most the timestamp of the row it asks about:
    the table has the same hashes before and after, every other row and
    every other file is as it was, and the row asked about, when there is
    one, is stamped with the time of the call. *)
Theorem Has_touches_only_its_row (d : sqlite.DB) (now : Time) (h : bytes)
    (fsys : sqlite.Files) (t : sqlite.Table) :
  fsys !! sqlite.db d = Some t →
  (∀ p, p ≠ sqlite.db d → (sqlite.DB_Has d now h fsys).2 !! p = fsys !! p) ∧
  ∃ t', (sqlite.DB_Has d now h fsys).2 !! sqlite.db d = Some t' ∧
        dom t' = dom t ∧
        (∀ h', h' ≠ h → t' !! h' = t !! h') ∧
        t' !! h = (λ _, time.Unix now) <$> t !! h.
Proof.
  intros Hp. rewrite DB_Has_files, Hp.
  destruct (t !! h) as [secs|] eqn:Hh.
  - split; [intros p Hne; by rewrite lookup_insert_ne|].
    exists (<[h := time.Unix now]> t). rewrite !lookup_insert_eq.
    split; [done|]. split; [|split; [|done]].
    + apply dom_insert_lookup_L. by rewrite Hh.
    + intros h' Hne. by rewrite lookup_insert_ne.
  - split; [done|]. exists t. by rewrite Hh.
Qed.

(** X5: whatever the retention window, and whatever [Add] returns, on a
    file that has the table [Add] leaves the row of its hash stamped with
    the time of the call, adds no other hash, and leaves every other row
    and every other file as it was. *)
Theorem Add_touches_only_its_row (d : sqlite.DB) (now1 now2 : Time) (h : bytes)
    (fsys : sqlite.Files) (t : sqlite.Table) :
  fsys !! sqlite.db d = Some t →
  (∀ p, p ≠ sqlite.db d → (sqlite.DB_Add d now1 now2 h fsys).2 !! p = fsys !! p) ∧
  ∃ t', (sqlite.DB_Add d now1 now2 h fsys).2 !! sqlite.db d = Some t' ∧
        dom t' = {[h]} ∪ dom t ∧
        (∀ h', h' ≠ h → t' !! h' = t !! h') ∧
        t' !! h = Some (time.Unix now1).
Proof.
  intros Hp. rewrite DB_Add_files, Hp.
  split; [intros p Hne; by rewrite lookup_insert_ne|].
  exists (<[h := time.Unix now1]> t). rewrite !lookup_insert_eq.
  split; [done|]. split; [apply dom_insert_L|]. split; [|done].
  intros h' Hne. by rewrite lookup_insert_ne.
Qed.

(** X6: on a file that has no [hashes] table (never opened through
    [Open], or replaced since), [Has] answers false together with an
    error and [Add] returns an error, each wrapped with the name of its
    own step, and neither creates the table or changes any file. *)
Theorem Has_Add_without_table (d : sqlite.DB) (now now1 now2 : Time) (h : bytes)
    (fsys : sqlite.Files) :
  fsys !! sqlite.db d = None →
  sqlite.DB_Has d now h fsys
  = ((false, Some (withMessage (errorString "no such table: hashes")
                               "updating database")), fsys) ∧
  sqlite.DB_Add d now1 now2 h fsys
  = (Some (withMessage (errorString "no such table: hashes")
                       "adding hash to database"), fsys).
Proof.
  intros Hp. split; [|by apply DB_Add_missing_table].
  unfold sqlite.DB_Has. by rewrite ExecContext_missing_table.
Qed.

Lemma store_step_grows (fsys fsys' : sqlite.Files) (p : string) (t : sqlite.Table) :
  store_step fsys fsys' → fsys !! p = Some t →
  ∃ t', fsys' !! p = Some t' ∧ dom t ⊆ dom t'.
Proof.
  intros Hstep Hp. destruct Hstep as
    [p0 opts fsys r fsys' Heq | d now h' fsys r fsys' Heq
    | d now1 now2 h' fsys r fsys' Heq];
    apply (f_equal snd) in Heq; simpl in Heq; subst fsys'.
  - rewrite Open_files. destruct (fsys !! p0) eqn:Hp0; [by exists t|].
    exists t. rewrite lookup_insert_ne by congruence. done.
  - rewrite DB_Has_files.
    destruct (fsys !! sqlite.db d) as [t0|] eqn:Hd; [|by exists t].
    destruct (t0 !! h'); [|by exists t].
    destruct (decide (sqlite.db d = p)) as [<-|Hne].
    + simplify_eq. eexists. rewrite lookup_insert_eq. split; [done|].
      apply dom_insert_subseteq.
    + exists t. by rewrite lookup_insert_ne.
  - rewrite DB_Add_files.
    destruct (fsys !! sqlite.db d) as [t0|] eqn:Hd; [|by exists t].
    destruct (decide (sqlite.db d = p)) as [<-|Hne].
    + simplify_eq. eexists. rewrite lookup_insert_eq. split; [done|].
      apply dom_insert_subseteq.
    + exists t. by rewrite lookup_insert_ne.
Qed.

(** X7: the store only grows.  Over any history of opens, [Has] and [Add]
    calls, through handles with any retention windows and at any times, a
    table that exists keeps existing and keeps every hash it has. *)
Theorem store_only_grows (fsys fsys' : sqlite.Files) (p : string)
    (t : sqlite.Table) :
  rtc store_step fsys fsys' → fsys !! p = Some t →
  ∃ t', fsys' !! p = Some t' ∧ dom t ⊆ dom t'.
Proof.
  intros Hsteps. revert t. induction Hsteps as [fsys|fsys fsys1 fsys' Hstep _ IH];
    intros t Hp.
  - by exists t.
  - destruct (store_step_grows _ _ _ _ Hstep Hp) as (t1 & Hp1 & Hsub).
    destruct (IH _ Hp1) as (t' & Hp' & Hsub'). exists t'. split; [done|].
    by etrans.
Qed.

(** ** The skip engine, call by call *)

Section skip_engine_calls.

Context {W D R : Type} `{!Host W, !DB W D, !Rule W R}.

#[local] Ltac run_calls :=
  unfold Fn_Run, mbind, Eff_bind, mret, Eff_ret, call_Verbose, call_Printf;
  simpl; unfold logged_as; simpl.

(** X8: whatever the rule and the store do (return, fail or panic), the
    calls of one invocation are an initial part of the sequence content
    hash, membership check, build action, content hash, add; so the build
    action runs at most once and only after a membership check, and [Add]
    is called at most once, last, and only after the build action and a
    second content hash. *)
Theorem Fn_Run_call_order (f : Fn D R) (w : W) :
  ∃ h1 h2,
    (Fn_Run (spy_Fn f) (w, [])).2.2
    `prefix_of` [CallContentHash; CallHas h1; CallRun; CallContentHash; CallAdd h2].
Proof.
  run_calls.
  destruct (Rule_ContentHash (Fn_Rule f) w) as [[[h [e|]]|msg] w1]; simpl;
    try (by exists [], []; eexists).
  destruct (DB_Has (Fn_DB f) h w1) as [[[ok [e|]]|msg] w2]; simpl;
    try (by exists h, []; eexists).
  destruct ok; simpl.
  { destruct (mg_Verbose w2); simpl; by exists h, []; eexists. }
  destruct (Rule_Run (Fn_Rule f) w2) as [[[e|]|msg] w3]; simpl;
    try (by exists h, []; eexists).
  destruct (Rule_ContentHash (Fn_Rule f) w3) as [[[h' [e|]]|msg] w4]; simpl;
    try (by exists h, []; eexists).
  destruct (DB_Add (Fn_DB f) h' w4) as [r w5]. simpl.
  by exists h, h'; eexists.
Qed.

(** X9: on a cache miss followed by a build action that returns nil, the
    hash handed to [Add] is the content hash computed after the build, not
    the one that missed, and [Fn.Run] returns what [Add] returns as it is,
    without wrapping. *)
Theorem Fn_Run_records_rebuilt_hash (f : Fn D R) (w w1 w2 w3 w4 : W)
    (h1 h2 : bytes) :
  Rule_ContentHash (Fn_Rule f) w = (Val (h1, None), w1) →
  DB_Has (Fn_DB f) h1 w1 = (Val (false, None), w2) →
  Rule_Run (Fn_Rule f) w2 = (Val None, w3) →
  Rule_ContentHash (Fn_Rule f) w3 = (Val (h2, None), w4) →
  Fn_Run f w = DB_Add (Fn_DB f) h2 w4 ∧
  (Fn_Run (spy_Fn f) (w, [])).2.2
  = [CallContentHash; CallHas h1; CallRun; CallContentHash; CallAdd h2].
Proof.
  intros H1 H2 H3 H4. split.
  - unfold Fn_Run, mbind, Eff_bind, mret, Eff_ret. simpl.
    rewrite H1. simpl. rewrite H2. simpl. rewrite H3. simpl. by rewrite H4.
  - run_calls. rewrite H1. simpl. rewrite H2. simpl. rewrite H3. simpl.
    rewrite H4. simpl. by destruct (DB_Add (Fn_DB f) h2 w4).
Qed.

(** X10: when the membership check returns an error, whatever boolean
    comes with it, [Fn.Run] returns that error wrapped as "consulting hash
    DB" and stops: the build action is not run and nothing is added. *)
Theorem Fn_Run_Has_error (f : Fn D R) (w w1 w2 : W) (h1 : bytes) (ok : bool)
    (e : error) :
  Rule_ContentHash (Fn_Rule f) w = (Val (h1, None), w1) →
  DB_Has (Fn_DB f) h1 w1 = (Val (ok, Some e), w2) →
  Fn_Run f w = (Val (Some (withMessage e "consulting hash DB")), w2) ∧
  (Fn_Run (spy_Fn f) (w, [])).2.2 = [CallContentHash; CallHas h1].
Proof.
  intros H1 H2. split.
  - unfold Fn_Run, mbind, Eff_bind, mret, Eff_ret. simpl.
    rewrite H1. simpl. by rewrite H2.
  - run_calls. rewrite H1. simpl. by rewrite H2.
Qed.

End skip_engine_calls.

(** ** The skip engine on a store opened with [Keep] *)

Lemma set_dbs_id (w : World) : set_dbs w (dbs w) = w.
Proof. by destruct w. Qed.

Lemma JRule_ContentHash_set_dbs (jr : JRule) (w : World) (fsys : sqlite.Files)
    (r : bytes * option error) :
  JRule_ContentHash jr w = (Val r, w) →
  JRule_ContentHash jr (set_dbs w fsys) = (Val r, set_dbs w fsys).
Proof.
  intros Hc. apply injective_projections; simpl.
  - rewrite (JRule_ContentHash_ext jr (set_dbs w fsys) w) by done. by rewrite Hc.
  - apply JRule_ContentHash_world.
Qed.

(** X11: with a store opened with [Keep], an invocation that misses the
    cache and rebuilds successfully returns the error of the failed
    eviction statement, although the command has run and the hash of the
    rebuilt files is recorded; invoked again on the files as they are, the
    engine finds that hash and returns nil without running the command. *)
Theorem Fn_Run_under_Keep (d : sqlite.DB) (jr : JRule) (w w3 : World)
    (h1 h2 : bytes) (t t3 : sqlite.Table) :
  sqlite.keep d > 0 →
  dbs w !! sqlite.db d = Some t →
  t !! h1 = None →
  JRule_ContentHash jr w = (Val (h1, None), w) →
  JRule_Run jr w = (Val None, w3) →
  dbs w3 !! sqlite.db d = Some t3 →
  JRule_ContentHash jr w3 = (Val (h2, None), w3) →
  let w4 := set_dbs w3 (<[sqlite.db d := <[h2 := time.Unix (now w3)]> t3]> (dbs w3)) in
  Fn_Run {| Fn_DB := d; Fn_Rule := jr |} w
  = (Val (Some (withMessage (errorString "not enough args to execute query")
                            "evicting expired database entries")), w4) ∧
  ∃ w5, Fn_Run (spy_Fn {| Fn_DB := d; Fn_Rule := jr |}) (w4, [])
        = (Val None, (w5, [CallContentHash; CallHas h2])).
Proof.
  intros Hk Hp Hh H1 H3 Hp3 H4 w4. split.
  - unfold Fn_Run, mbind, Eff_bind, mret, Eff_ret. simpl.
    rewrite H1. simpl.
    rewrite (DB_Has_spec d (now w) h1 (dbs w) t Hp), Hh. simpl.
    rewrite set_dbs_id, H3. simpl. rewrite H4. simpl.
    by rewrite (DB_Add_Keep d (now w3) (now w3) h2 (dbs w3) t3 Hp3 Hk).
  - assert (stored (sqlite.db d) h2 (dbs w4)) as Hs.
    { eexists. simpl. rewrite lookup_insert_eq. split; [done|].
      rewrite lookup_insert_eq. eauto. }
    destruct (DB_Has_stored d (now w4) h2 (dbs w4) Hs) as (fsys5 & Hhas).
    eexists.
    apply (Fn_Run_hit (W := World) {| Fn_DB := d; Fn_Rule := jr |} w4 w4
             (set_dbs w4 fsys5) h2).
    + by apply JRule_ContentHash_set_dbs.
    + cbn [DB_Has sqlite_DB Fn_DB]. by rewrite Hhas.
Qed.

(** ** The content hash as a function of the declared files *)

Lemma filled_lookup_notin (fsys : FS) (fs : list string)
    (hashes : gmap string (option bytes)) (p : string) :
  p ∉ fs →
  foldl (λ m q, <[q := digest_or_null fsys q]> m) hashes fs !! p = hashes !! p.
Proof.
  revert hashes. induction fs as [|file rest IH]; intros hashes Hp; [done|].
  apply not_elem_of_cons in Hp as [Hne Hp]. simpl.
  rewrite IH by done. by rewrite lookup_insert_ne.
Qed.

Lemma filled_same_elements (fsys : FS) (fs fs' : list string) :
  (∀ p, p ∈ fs ↔ p ∈ fs') →
  foldl (λ m q, <[q := digest_or_null fsys q]> m) (∅ : gmap string (option bytes)) fs
  = foldl (λ m q, <[q := digest_or_null fsys q]> m) ∅ fs'.
Proof.
  intros Hsame. apply map_eq. intros p.
  destruct (decide (p ∈ fs)) as [Hp|Hp].
  - rewrite !filled_lookup; [done|by apply Hsame|done].
  - rewrite !filled_lookup_notin; [done|by rewrite <- Hsame|done].
Qed.

(** X12: the content hash takes its sources and its targets as sets.
    Two rules that declare the same source paths and the same target
    paths, in any order and with any repetitions, and the same command,
    have the same content hash wherever every declared file is missing or
    readable. *)
Theorem ContentHash_ignores_order_and_repetition (jr jr' : JRule) (w : World) :
  (∀ p, p ∈ Sources jr ↔ p ∈ Sources jr') →
  (∀ p, p ∈ Targets jr ↔ p ∈ Targets jr') →
  Command jr = Command jr' →
  (∀ p, p ∈ Sources jr ++ Targets jr →
        missing (files w) p ∨ readable (files w) p) →
  JRule_ContentHash jr w = JRule_ContentHash jr' w.
Proof.
  intros Hs Ht Hc Hok.
  rewrite (JRule_ContentHash_ok jr w Hok).
  rewrite (JRule_ContentHash_ok jr' w).
  - unfold content_of.
    by rewrite (filled_same_elements _ _ _ Hs), (filled_same_elements _ _ _ Ht), Hc.
  - intros p Hp. apply Hok. rewrite elem_of_app in *. by rewrite Hs, Ht.
Qed.

Lemma content_of_differs (jr : JRule) (fsys fsys' : FS) (p : string) :
  p ∈ Sources jr ++ Targets jr →
  digest_or_null fsys p ≠ digest_or_null fsys' p →
  content_of fsys jr ≠ content_of fsys' jr.
Proof.
  intros Hp Hne Heq. apply elem_of_app in Hp as [Hp|Hp].
  - apply (f_equal (λ s, cSources s !! p)) in Heq. simpl in Heq.
    rewrite !filled_lookup in Heq by done. congruence.
  - apply (f_equal (λ s, cTargets s !! p)) in Heq. simpl in Heq.
    rewrite !filled_lookup in Heq by done. congruence.
Qed.

(** X13: a change in what a declared file contributes changes the content
    hash.  Between two worlds in which every declared file is missing or
    readable, if some declared source or target is missing in one and
    present in the other, or has a different digest, then the two content
    hashes are digests and differ, provided the encoder does not fail on,
    and tells apart, the two structs and the digest does not collide on
    the two encodings. *)
Theorem ContentHash_detects_change (jr : JRule) (w w' : World) (p : string)
    (j j' : bytes) :
  (∀ q, q ∈ Sources jr ++ Targets jr →
        missing (files w) q ∨ readable (files w) q) →
  (∀ q, q ∈ Sources jr ++ Targets jr →
        missing (files w') q ∨ readable (files w') q) →
  p ∈ Sources jr ++ Targets jr →
  digest_or_null (files w) p ≠ digest_or_null (files w') p →
  json_Marshal_content (content_of (files w) jr) = (j, None) →
  json_Marshal_content (content_of (files w') jr) = (j', None) →
  content_Marshal_distinguishes (content_of (files w) jr) (content_of (files w') jr) →
  no_collision j j' →
  ∃ h h',
    JRule_ContentHash jr w = (Val (h, None), w) ∧
    JRule_ContentHash jr w' = (Val (h', None), w') ∧
    h ≠ h'.
Proof.
  intros Hok Hok' Hp Hne Hj Hj' Hm Hc.
  exists (sha256_Sum256 j), (sha256_Sum256 j').
  rewrite (JRule_ContentHash_ok jr w Hok), (JRule_ContentHash_ok jr w' Hok').
  rewrite Hj, Hj'. split; [done|]. split; [done|].
  apply Hc. unfold content_Marshal_distinguishes in Hm. rewrite Hj, Hj' in Hm.
  apply Hm. by eapply content_of_differs.
Qed.

Lemma fillWithFileHashes_app_ok (fsys : FS) (pre rest : list string)
    (hashes : gmap string (option bytes)) :
  (∀ p, p ∈ pre → missing fsys p ∨ readable fsys p) →
  fillWithFileHashes fsys (pre ++ rest) hashes
  = fillWithFileHashes fsys rest
      (foldl (λ m p, <[p := digest_or_null fsys p]> m) hashes pre).
Proof.
  revert hashes. induction pre as [|file pre IH]; intros hashes Hok; [done|].
  assert (∀ p, p ∈ pre → missing fsys p ∨ readable fsys p) as Hpre
    by (intros p Hp; apply Hok; by apply list_elem_of_further).
  simpl. destruct (Hok file) as [Hm|Hr]; [apply list_elem_of_here|..].
  - destruct (hashFile_missing _ _ Hm) as (e & -> & His). simpl. rewrite His.
    rewrite IH by done. do 2 f_equal.
    destruct Hm as (e0 & Hp & _). unfold digest_or_null. by rewrite Hp.
  - rewrite (hashFile_readable _ _ Hr). simpl. by rewrite IH.
Qed.

Lemma fillWithFileHashes_first_failure (fsys : FS) (pre post : list string)
    (q : string) (e : error) (hashes : gmap string (option bytes)) :
  (∀ p, p ∈ pre → missing fsys p ∨ readable fsys p) →
  read_failure fsys q e →
  (fillWithFileHashes fsys (pre ++ q :: post) hashes).2
  = Some (withMessage e ("computing hash of " +:+ q)).
Proof.
  intros Hok Hf. rewrite fillWithFileHashes_app_ok by done. simpl.
  apply hashFile_read_failure in Hf as [-> His]. simpl. by rewrite His.
Qed.

(** X14: the error of [ContentHash] is that of the first declared path
    that fails, sources before targets, in the order in which they are
    listed; what comes after that path, and with a failing source all the
    targets, plays no part. *)
Theorem ContentHash_reports_first_failure (jr : JRule) (w : World)
    (pre post : list string) (q : string) (e : error) :
  (∀ p, p ∈ pre → missing (files w) p ∨ readable (files w) p) →
  read_failure (files w) q e →
  (Sources jr = pre ++ q :: post →
   JRule_ContentHash jr w
   = (Val ([], Some (withMessage (withMessage e ("computing hash of " +:+ q))
                                 "computing source hash(es)")), w)) ∧
  ((∀ p, p ∈ Sources jr → missing (files w) p ∨ readable (files w) p) →
   Targets jr = pre ++ q :: post →
   JRule_ContentHash jr w
   = (Val ([], Some (withMessage (withMessage e ("computing hash of " +:+ q))
                                 "computing target hash(es)")), w)).
Proof.
  intros Hok Hf. split.
  - intros Hs. unfold JRule_ContentHash. rewrite Hs.
    pose proof (fillWithFileHashes_first_failure (files w) pre post q e ∅ Hok Hf)
      as Hfill.
    destruct (fillWithFileHashes (files w) (pre ++ q :: post) ∅) as [m err].
    simpl in Hfill. by subst err.
  - intros Hsok Ht. unfold JRule_ContentHash.
    rewrite (fillWithFileHashes_ok (files w) (Sources jr) ∅ Hsok), Ht.
    pose proof (fillWithFileHashes_first_failure (files w) pre post q e ∅ Hok Hf)
      as Hfill.
    destruct (fillWithFileHashes (files w) (pre ++ q :: post) ∅) as [m err].
    simpl in Hfill. by subst err.
Qed.

(** ** The identity of a dependency *)

Lemma hex_EncodeToString_length (src : bytes) :
  String.length (hex_EncodeToString src) = (2 * length src)%nat.
Proof. induction src as [|v src IH]; simpl; [done|]. rewrite IH. lia. Qed.

(** X15: the identifier that [Fn.ID] gives the host depends on the rule
    only through its rule hash.  Under one name, two file-set rules with
    the same sources and targets in any order and the same command get
    the same identifier, whatever their working directories and whatever
    stores they are paired with; the identifier has two characters for
    each byte of the digest and computing it leaves the world alone. *)
Theorem Fn_ID_same_identity {D D' : Type} (name : string) (d : D) (d' : D')
    (jr jr' : JRule) (w : World) :
  same_identity jr jr' →
  ∃ digest,
    Fn_ID name {| Fn_DB := d; Fn_Rule := jr |} w
    = (Val (hex_EncodeToString digest), w) ∧
    Fn_ID name {| Fn_DB := d'; Fn_Rule := jr' |} w
    = (Val (hex_EncodeToString digest), w) ∧
    String.length (hex_EncodeToString digest) = (2 * length digest)%nat.
Proof.
  intros Hs. unfold Fn_ID, mbind, Eff_bind, mret, Eff_ret. simpl.
  rewrite (JRule_RuleHash_same_identity jr jr' Hs).
  destruct (json_Marshal_ID _) as [j e]. exists (sha256_Sum256 j).
  split; [done|]. split; [done|]. apply hex_EncodeToString_length.
Qed.

(** ** Rules for the protocol buffer compiler *)






(** ** The two revisions of the file-set rule *)

(** X18: the revision without [Dir] computes the content hash of the
    later revision: for a rule with the same lists and any working
    directory, both return the same digest or the same error in every
    world and leave the world as it was.  The earlier one also writes to
    the standard output, exactly one line, naming the targets and the
    digest in hexadecimal, when it returns a digest, and nothing when it
    returns an error. *)
Theorem JRule0_ContentHash_agrees (jr : JRule0) (dir : string) (w : World)
    (out : list string) :
  ∃ h err,
    JRule_ContentHash (with_Dir0 jr dir) w = (Val (h, err), w) ∧
    JRule0_ContentHash jr (w, out)
    = (Val (h, err),
       (w, if err is Some _ then out else out ++ [xxx_line (Targets0 jr) h])).
Proof.
  unfold JRule_ContentHash, JRule0_ContentHash. simpl.
  destruct (fillWithFileHashes (files w) (Sources0 jr) ∅) as [srcs [e|]];
    [by eexists _, _|].
  destruct (fillWithFileHashes (files w) (Targets0 jr) ∅) as [tgts [e|]];
    [by eexists _, _|].
  destruct (json_Marshal_content _) as [j [e|]]; by eexists _, _.
Qed.

(** X19: [Run] of the revision without [Dir] panics on an empty command
    like the later one; on any other command, when the verbosity flag is
    off, it is [Run] of the later revision with an empty working
    directory, and when the flag is on it starts the same command with
    the output streams connected but writes no log line first. *)
Theorem JRule0_Run_agrees (jr : JRule0) (w : World) :
  (Command0 jr = [] → JRule0_Run jr w = (Panic "index out of range", w)) ∧
  (verbose w = false → JRule0_Run jr w = JRule_Run (with_Dir0 jr "") w) ∧
  (∀ name arg, Command0 jr = name :: arg →
     JRule0_Run jr w
     = (Val (Cmd_Run (spawned (with_Dir0 jr "") name arg (verbose w)) w).1,
        (Cmd_Run (spawned (with_Dir0 jr "") name arg (verbose w)) w).2)).
Proof.
  unfold JRule0_Run, JRule_Run. run_Eff.
  destruct (Command0 jr) as [|name arg]; simpl.
  - split; [done|]. split; [done|]. intros ? ? [=].
  - rewrite drop_0. split; [done|]. split.
    + intros ->. done.
    + intros ? ? [= <- <-]. unfold spawned.
      destruct (verbose w); simpl; by destruct (Cmd_Run _ _).
Qed.

Lemma RuleHash0_jr2_eq_iff (jr jr' : JRule0) :
  RuleHash0_jr2 jr = RuleHash0_jr2 jr' ↔ same_identity0 jr jr'.
Proof.
  unfold RuleHash0_jr2, same_identity0. rewrite <- !sort_Strings_eq_iff. split.
  - intros [= Hs Ht Hc]. done.
  - intros (Hs & Ht & Hc). by rewrite Hs, Ht, Hc.
Qed.

(** X20: the rule hash of the revision without [Dir] is likewise the same
    for rules that list the same sources and the same targets in any
    order and have the same command, and it differs for two rules that do
    not, as long as the encoder tells their sorted copies apart and the
    digest does not collide on the two encodings. *)
Theorem JRule0_RuleHash_identity (jr jr' : JRule0) :
  (same_identity0 jr jr' → JRule0_RuleHash jr = JRule0_RuleHash jr') ∧
  (((RuleHash0_jr2 jr ≠ RuleHash0_jr2 jr' →
     (json_Marshal_JRule0 (RuleHash0_jr2 jr)).1
     ≠ (json_Marshal_JRule0 (RuleHash0_jr2 jr')).1)) →
   no_collision (json_Marshal_JRule0 (RuleHash0_jr2 jr)).1
                (json_Marshal_JRule0 (RuleHash0_jr2 jr')).1 →
   ¬ same_identity0 jr jr' →
   JRule0_RuleHash jr ≠ JRule0_RuleHash jr').
Proof.
  unfold JRule0_RuleHash. fold (RuleHash0_jr2 jr) (RuleHash0_jr2 jr'). split.
  - intros Hs. by rewrite (proj2 (RuleHash0_jr2_eq_iff jr jr') Hs).
  - intros Hm Hc Hns. rewrite <- RuleHash0_jr2_eq_iff in Hns.
    specialize (Hc (Hm Hns)).
    by destruct (json_Marshal_JRule0 (RuleHash0_jr2 jr)),
                (json_Marshal_JRule0 (RuleHash0_jr2 jr')).
Qed.

(** ** A rule without a command *)

(** X21: a file-set rule whose command is empty does no harm as long as
    its content hash is in the store: the invocation returns nil.  On a
    cache miss the invocation panics in [Run], at the index expression,
    after the membership check and before anything is added: the store is
    as it was. *)
Theorem Fn_Run_empty_Command (d : sqlite.DB) (jr : JRule) (w : World) (h : bytes)
    (t : sqlite.Table) :
  Command jr = [] →
  JRule_ContentHash jr w = (Val (h, None), w) →
  dbs w !! sqlite.db d = Some t →
  (is_Some (t !! h) →
   (Fn_Run {| Fn_DB := d; Fn_Rule := jr |} w).1 = Val None) ∧
  (t !! h = None →
   Fn_Run {| Fn_DB := d; Fn_Rule := jr |} w = (Panic "index out of range", w) ∧
   (Fn_Run (spy_Fn {| Fn_DB := d; Fn_Rule := jr |}) (w, [])).2.2
   = [CallContentHash; CallHas h; CallRun]).
Proof.
  intros Hc H1 Hp. split.
  - intros [secs Hh]. unfold Fn_Run, mbind, Eff_bind, mret, Eff_ret. simpl.
    rewrite H1. simpl.
    rewrite (DB_Has_spec d (now w) h (dbs w) t Hp), Hh. simpl.
    by destruct (verbose w).
  - intros Hh. split.
    + unfold Fn_Run, mbind, Eff_bind, mret, Eff_ret. simpl.
      rewrite H1. simpl.
      rewrite (DB_Has_spec d (now w) h (dbs w) t Hp), Hh. simpl.
      rewrite set_dbs_id. by rewrite (JRule_Run_empty_Command jr w Hc).
    + unfold Fn_Run, mbind, Eff_bind, mret, Eff_ret. simpl. unfold logged_as. simpl.
      rewrite H1. simpl.
      rewrite (DB_Has_spec d (now w) h (dbs w) t Hp), Hh. simpl.
      rewrite set_dbs_id. by rewrite (JRule_Run_empty_Command jr w Hc).
Qed.

End mghash.

(** * Instances of the properties at concrete inputs *)

Definition hashes_sqlite : string := "hashes.sqlite".
Definition h1 : bytes := [Byte.x01].
Definition h2 : bytes := [Byte.x02].
Definition empty_store : sqlite.Files := {[hashes_sqlite := ∅]}.
Definition db_keep_all : sqlite.DB := {| sqlite.db := hashes_sqlite; sqlite.keep := 0 |}.
Definition db_keep_10s : sqlite.DB :=
  sqlite.Keep (10 * time.Second) db_keep_all.

(** A store opened with [Keep(10s)]: [h1] is added at second 1000 and
    [h2] at second 2000; [h1] is still there, stamped 1000. *)
Lemma DB_Add_Keep_never_evicts_witness :
  ∃ t2, (sqlite.DB_Add db_keep_10s (2000 * time.Second) (2000 * time.Second) h2
           (sqlite.DB_Add db_keep_10s (1000 * time.Second) (1000 * time.Second) h1
              empty_store).2).2 !! hashes_sqlite = Some t2
        ∧ t2 !! h1 = Some 1000.
Proof.
  apply (DB_Add_Keep_never_evicts db_keep_10s (1000 * time.Second)
           (2000 * time.Second) h1 h2 empty_store ∅).
  - reflexivity.
  - reflexivity.
  - discriminate.
  - discriminate.
Defined.

Lemma DB_Add_Keep_returns_error_witness :
  sqlite.DB_Add db_keep_10s (1000 * time.Second) (1000 * time.Second) h1 empty_store
  = (Some (withMessage (errorString "not enough args to execute query")
                       "evicting expired database entries"),
     <[hashes_sqlite := <[h1 := 1000]> ∅]> empty_store).
Proof.
  apply (DB_Add_Keep_returns_error db_keep_10s (1000 * time.Second)
           (1000 * time.Second) h1 empty_store ∅).
  - reflexivity.
  - reflexivity.
Defined.

Lemma Has_after_successful_Add_witness :
  (∃ fsys3, sqlite.DB_Has db_keep_10s (5000 * time.Second) h1
              (sqlite.DB_Add db_keep_all (1000 * time.Second) (1000 * time.Second)
                 h1 empty_store).2 = ((true, None), fsys3)) ∧
  ((∀ t, (sqlite.DB_Add db_keep_all (1000 * time.Second) (1000 * time.Second)
            h1 empty_store).2 !! hashes_sqlite = Some t → t !! h2 = None) →
   sqlite.DB_Has db_keep_10s (5000 * time.Second) h2
     (sqlite.DB_Add db_keep_all (1000 * time.Second) (1000 * time.Second)
        h1 empty_store).2
   = ((false, None),
      (sqlite.DB_Add db_keep_all (1000 * time.Second) (1000 * time.Second)
         h1 empty_store).2)).
Proof.
  apply (Has_after_successful_Add db_keep_all db_keep_10s (1000 * time.Second)
           (1000 * time.Second) (5000 * time.Second) h1 h2 empty_store
           (sqlite.DB_Add db_keep_all (1000 * time.Second) (1000 * time.Second)
              h1 empty_store).2).
  - reflexivity.
  - apply rtc_refl.
  - reflexivity.
Defined.

(** ** Stand-ins for the functions of other packages

    Simple total functions in the place of the digest, the encoder and the
    process runner, so that the properties can be run on an example: the
    digest is the identity, the encoders write the fields out with
    separators, and the runner knows [cp] and [false]. *)

Definition demo_sha256 (b : bytes) : bytes := b.

Definition demo_Marshal_JRule (jr : JRule) : bytes * option error :=
  (String.list_byte_of_string
     (strings_Join (Sources jr ++ "|" :: Targets jr ++ "|" :: Command jr ++ ["|"; Dir jr])
                   ","), None).

Definition demo_entry (kv : string * option bytes) : string :=
  kv.1 +:+ "=" +:+
  match kv.2 with
  | None => "null"
  | Some b => String.string_of_list_byte b
  end.

Definition demo_Marshal_content (s : contentStruct) : bytes * option error :=
  (String.list_byte_of_string
     (strings_Join ((demo_entry <$> map_to_list (cSources s)) ++ "|" ::
                    (demo_entry <$> map_to_list (cTargets s)) ++ "|" ::
                    cCommand s) ","), None).

Definition set_files (w : World) (fsys : FS) : World :=
  {| files := fsys; dbs := dbs w; now := now w; verbose := verbose w;
     logged := logged w |}.

Definition demo_Cmd_Run (cmd : Cmd) (w : World) : option error * World :=
  match Args cmd with
  | [_; src; dst] =>
      if bool_decide (Path cmd = "cp")
      then (None, set_files w (λ p, if bool_decide (p = dst) then files w src
                                    else files w p))
      else (Some (errorString "exit status 1"), w)
  | _ => (Some (errorString "exit status 1"), w)
  end.

#[local] Instance demo_Rule : Rule World JRule :=
  JRule_Rule demo_sha256 demo_Marshal_JRule demo_Marshal_content demo_Cmd_Run.

(** The scenario of the specification: source [a.txt] holding ["x"],
    target [b.txt] absent, command [cp a.txt b.txt]. *)
Definition demo_files : FS := λ p,
  if bool_decide (p = "a.txt") then Opened [Byte.x78] None
  else if bool_decide (p = "locked.txt")
       then OpenFails (PathError "open" p (Errno 13))
       else OpenFails (PathError "open" p (Errno ENOENT)).

Definition demo_world : World :=
  {| files := demo_files; dbs := empty_store; now := 1000 * time.Second;
     verbose := false; logged := [] |}.

Definition rule_cp : JRule :=
  {| Sources := ["a.txt"]; Targets := ["b.txt"];
     Command := ["cp"; "a.txt"; "b.txt"]; Dir := "" |}.

Definition rule_false : JRule :=
  {| Sources := ["a.txt"]; Targets := ["b.txt"]; Command := ["false"]; Dir := "" |}.

Definition rule_locked : JRule :=
  {| Sources := ["a.txt"; "locked.txt"]; Targets := ["b.txt"];
     Command := ["cp"; "a.txt"; "b.txt"]; Dir := "" |}.

(** The world after the first, rebuilding, invocation for [rule_cp]. *)
Definition built_world : World :=
  (Fn_Run {| Fn_DB := db_keep_all; Fn_Rule := rule_cp |} demo_world).2.

Lemma pair_eq {A B} (x : A * B) (a : A) (b : B) : x.1 = a → x.2 = b → x = (a, b).
Proof. destruct x. simpl. congruence. Qed.

(** The build action fails: the error comes back wrapped and nothing is
    added to the store. *)
Lemma Fn_Run_failure_never_Adds_witness :
  ∃ w',
    Fn_Run {| Fn_DB := db_keep_all; Fn_Rule := rule_false |} demo_world
    = (Val (Some (withMessage (errorString "exit status 1") "in Run")), w') ∧
    ∃ calls,
      Fn_Run (spy_Fn {| Fn_DB := db_keep_all; Fn_Rule := rule_false |})
        (demo_world, [])
      = (Val (Some (withMessage (errorString "exit status 1") "in Run")),
         (w', calls))
      ∧ ∀ h, CallAdd h ∉ calls.
Proof.
  eexists.
  apply (Fn_Run_failure_never_Adds
           {| Fn_DB := db_keep_all; Fn_Rule := rule_false |} demo_world).
  eapply fails_in_Run;
    (apply pair_eq; [vm_compute; reflexivity | reflexivity]).
Defined.

(** The second invocation for [rule_cp] is a cache hit. *)
Lemma Fn_Run_cache_hit_witness :
  ∃ h w',
    Fn_Run {| Fn_DB := db_keep_all; Fn_Rule := rule_cp |} built_world
    = (Val None, w') ∧
    Fn_Run (spy_Fn {| Fn_DB := db_keep_all; Fn_Rule := rule_cp |}) (built_world, [])
    = (Val None, (w', [CallContentHash; CallHas h])).
Proof.
  eexists _, _.
  eapply (Fn_Run_cache_hit {| Fn_DB := db_keep_all; Fn_Rule := rule_cp |}
            built_world);
    (apply pair_eq; [vm_compute; reflexivity | reflexivity]).
Defined.

Definition rule_cp_reordered : JRule :=
  {| Sources := ["z.txt"; "a.txt"]; Targets := ["b.txt"; "y.txt"];
     Command := ["cp"; "a.txt"; "b.txt"]; Dir := "" |}.

Definition rule_cp_declared : JRule :=
  {| Sources := ["a.txt"; "z.txt"]; Targets := ["y.txt"; "b.txt"];
     Command := ["cp"; "a.txt"; "b.txt"]; Dir := "" |}.

(** Listing the sources and targets in another order leaves the rule
    hash alone; changing the command token [cp] to [mv] changes it. *)
Lemma RuleHash_identity_witness :
  JRule_RuleHash demo_sha256 demo_Marshal_JRule rule_cp_declared
  = JRule_RuleHash demo_sha256 demo_Marshal_JRule rule_cp_reordered ∧
  JRule_RuleHash demo_sha256 demo_Marshal_JRule rule_cp_declared
  ≠ JRule_RuleHash demo_sha256 demo_Marshal_JRule
      (with_Command rule_cp_declared (<[0%nat := "mv"]> (Command rule_cp_declared))).
Proof.
  split.
  - apply (proj1 (RuleHash_identity demo_sha256 demo_Marshal_JRule
                    demo_Marshal_content demo_Cmd_Run
                    rule_cp_declared rule_cp_reordered)).
    repeat split; simpl; [apply perm_swap..].
  - apply (proj1 (proj2 (proj2 (RuleHash_identity demo_sha256 demo_Marshal_JRule
                    demo_Marshal_content demo_Cmd_Run
                    rule_cp_declared
                    (with_Command rule_cp_declared
                       (<[0%nat := "mv"]> (Command rule_cp_declared))))))).
    + intros _. vm_compute. discriminate.
    + intros _. vm_compute. discriminate.
    + intros (_ & _ & Hc). discriminate Hc.
Defined.

(** The same files at a later time and with the verbosity flag set. *)
Definition later_world : World :=
  {| files := demo_files; dbs := ∅; now := 5000 * time.Second; verbose := true;
     logged := ["earlier line"] |}.

Lemma ContentHash_deterministic_witness :
  (JRule_ContentHash demo_sha256 demo_Marshal_content rule_cp demo_world).1
  = (JRule_ContentHash demo_sha256 demo_Marshal_content rule_cp later_world).1 ∧
  (JRule_ContentHash demo_sha256 demo_Marshal_content rule_cp demo_world).2
  = demo_world ∧
  JRule_ContentHash demo_sha256 demo_Marshal_content rule_cp
    (JRule_ContentHash demo_sha256 demo_Marshal_content rule_cp demo_world).2
  = JRule_ContentHash demo_sha256 demo_Marshal_content rule_cp demo_world ∧
  ∃ h err,
    (JRule_ContentHash demo_sha256 demo_Marshal_content rule_cp demo_world).1
    = Val (h, err).
Proof.
  apply (ContentHash_deterministic demo_sha256 demo_Marshal_content rule_cp
           demo_world later_world).
  intros p _. reflexivity.
Defined.

(** [b.txt] does not exist: it is entered as null and the hash is
    computed.  [locked.txt] exists and cannot be opened: an error. *)
Lemma ContentHash_missing_vs_read_failure_witness :
  cTargets (content_of demo_sha256 demo_files rule_cp) !! "b.txt" = Some None ∧
  (∃ h, JRule_ContentHash demo_sha256 demo_Marshal_content rule_cp demo_world
        = (Val (h, None), demo_world)) ∧
  ∃ q e' ctx,
    JRule_ContentHash demo_sha256 demo_Marshal_content rule_locked demo_world
    = (Val ([], Some (withMessage (withMessage e' ("computing hash of " +:+ q)) ctx)),
       demo_world).
Proof.
  pose proof (ContentHash_missing_vs_read_failure demo_sha256 demo_Marshal_content
                rule_cp demo_world) as [Hok _].
  pose proof (ContentHash_missing_vs_read_failure demo_sha256 demo_Marshal_content
                rule_locked demo_world) as [_ Hfail].
  assert (missing demo_files "b.txt") as Hb
    by (eexists; split; reflexivity).
  assert (readable demo_files "a.txt") as Ha
    by (eexists; reflexivity).
  destruct Hok as (_ & Hnull & Hhash).
  { intros p Hp. simpl in Hp.
    apply elem_of_cons in Hp as [->|Hp]; [by right|].
    apply list_elem_of_singleton in Hp as ->. by left. }
  split; [apply Hnull; [apply list_elem_of_here|exact Hb]|].
  split; [eexists; exact Hhash|].
  destruct (Hfail "locked.txt"
              (withMessage (PathError "open" "locked.txt" (Errno 13))
                           "opening locked.txt"))
    as (q & e' & ctx & _ & _ & Herr).
  { simpl. apply list_elem_of_further, list_elem_of_here. }
  { apply (open_failure demo_files "locked.txt"); reflexivity. }
  exists q, e', ctx. exact Herr.
Defined.

(** A build in the default directory makes the same command configured
    for the directory [sub] a cache hit. *)
Lemma Dir_not_hashed_witness :
  ∃ h w3,
    Fn_Run (spy_Fn {| Fn_DB := db_keep_all; Fn_Rule := with_Dir rule_cp "sub" |})
      (built_world, [])
    = (Val None, (w3, [CallContentHash; CallHas h]))
    ∧ files w3 = files built_world.
Proof.
  apply (proj2 (proj2 (Dir_not_hashed demo_sha256 demo_Marshal_JRule
                         demo_Marshal_content demo_Cmd_Run rule_cp "sub"))
           db_keep_all db_keep_all demo_world built_world built_world).
  - apply pair_eq; [vm_compute; reflexivity | reflexivity].
  - reflexivity.
  - apply rtc_refl.
  - reflexivity.
Defined.

Lemma JRule_Run_spawns_Command_witness :
  (Command rule_cp !! 0%nat = Some "cp" ∧ drop 1 (Command rule_cp) = ["a.txt"; "b.txt"]) ∧
  JRule_Run demo_Cmd_Run rule_cp demo_world
  = (Val (demo_Cmd_Run (spawned rule_cp "cp" ["a.txt"; "b.txt"] false) demo_world).1,
     (demo_Cmd_Run (spawned rule_cp "cp" ["a.txt"; "b.txt"] false) demo_world).2).
Proof.
  apply (JRule_Run_spawns_Command demo_Cmd_Run rule_cp demo_world "cp"
           ["a.txt"; "b.txt"]).
  reflexivity.
Defined.

(** ** Instances of the further properties *)

Definition demo_Marshal_ID (s : idStruct) : bytes * option error :=
  (String.list_byte_of_string (id_Name s) ++ id_RuleHash s, None).



Lemma Add_then_Has_without_Keep_witness :
  (sqlite.DB_Add db_keep_all (1000 * time.Second) (1000 * time.Second) h1
     empty_store).1 = None ∧
  sqlite.DB_Has db_keep_10s (5000 * time.Second) h1
    (sqlite.DB_Add db_keep_all (1000 * time.Second) (1000 * time.Second) h1
       empty_store).2
  = ((true, None), <[hashes_sqlite := <[h1 := 5000]> ∅]> empty_store).
Proof.
  apply (Add_then_Has_without_Keep db_keep_all db_keep_10s (1000 * time.Second)
           (1000 * time.Second) (5000 * time.Second) h1 empty_store ∅).
  - reflexivity.
  - intros H. discriminate H.
  - reflexivity.
Defined.

(** A store that holds [h1], stamped 1000. *)
Definition store_with_h1 : sqlite.Files := {[hashes_sqlite := <[h1 := 1000]> ∅]}.

Lemma Has_touches_only_its_row_witness :
  (∀ p, p ≠ hashes_sqlite →
        (sqlite.DB_Has db_keep_all (5000 * time.Second) h2 store_with_h1).2 !! p
        = store_with_h1 !! p) ∧
  ∃ t', (sqlite.DB_Has db_keep_all (5000 * time.Second) h2 store_with_h1).2
          !! hashes_sqlite = Some t' ∧
        dom t' = dom (<[h1 := 1000]> (∅ : sqlite.Table)) ∧
        (∀ h', h' ≠ h2 → t' !! h' = (<[h1 := 1000]> (∅ : sqlite.Table)) !! h') ∧
        t' !! h2 = (λ _, time.Unix (5000 * time.Second))
                     <$> (<[h1 := 1000]> (∅ : sqlite.Table)) !! h2.
Proof.
  apply (Has_touches_only_its_row db_keep_all (5000 * time.Second) h2
           store_with_h1 (<[h1 := 1000]> ∅)).
  reflexivity.
Defined.

Lemma Add_touches_only_its_row_witness :
  (∀ p, p ≠ hashes_sqlite →
        (sqlite.DB_Add db_keep_10s (5000 * time.Second) (5000 * time.Second) h2
           store_with_h1).2 !! p = store_with_h1 !! p) ∧
  ∃ t', (sqlite.DB_Add db_keep_10s (5000 * time.Second) (5000 * time.Second) h2
           store_with_h1).2 !! hashes_sqlite = Some t' ∧
        dom t' = {[h2]} ∪ dom (<[h1 := 1000]> (∅ : sqlite.Table)) ∧
        (∀ h', h' ≠ h2 → t' !! h' = (<[h1 := 1000]> (∅ : sqlite.Table)) !! h') ∧
        t' !! h2 = Some (time.Unix (5000 * time.Second)).
Proof.
  apply (Add_touches_only_its_row db_keep_10s (5000 * time.Second)
           (5000 * time.Second) h2 store_with_h1 (<[h1 := 1000]> ∅)).
  reflexivity.
Defined.

Lemma Has_Add_without_table_witness :
  sqlite.DB_Has db_keep_all (1000 * time.Second) h1 ∅
  = ((false, Some (withMessage (errorString "no such table: hashes")
                               "updating database")), ∅) ∧
  sqlite.DB_Add db_keep_all (1000 * time.Second) (1000 * time.Second) h1 ∅
  = (Some (withMessage (errorString "no such table: hashes")
                       "adding hash to database"), ∅).
Proof.
  apply (Has_Add_without_table db_keep_all (1000 * time.Second)
           (1000 * time.Second) (1000 * time.Second) h1 ∅).
  reflexivity.
Defined.

Lemma store_only_grows_witness :
  ∃ t', (sqlite.DB_Add db_keep_10s (5000 * time.Second) (5000 * time.Second) h2
           store_with_h1).2 !! hashes_sqlite = Some t'
        ∧ dom (<[h1 := 1000]> (∅ : sqlite.Table)) ⊆ dom t'.
Proof.
  apply (store_only_grows store_with_h1 _ hashes_sqlite (<[h1 := 1000]> ∅)).
  - apply rtc_once.
    apply (step_Add db_keep_10s (5000 * time.Second) (5000 * time.Second) h2
             store_with_h1
             (sqlite.DB_Add db_keep_10s (5000 * time.Second) (5000 * time.Second)
                h2 store_with_h1).1).
    apply surjective_pairing.
  - reflexivity.
Defined.

(** The first invocation for [rule_cp]: a miss, the copy, and the hash of
    the files after the copy handed to [Add]. *)
Lemma Fn_Run_records_rebuilt_hash_witness :
  ∃ h1 h2 w4,
    Fn_Run {| Fn_DB := db_keep_all; Fn_Rule := rule_cp |} demo_world
    = DB_Add db_keep_all h2 w4 ∧
    (Fn_Run (spy_Fn {| Fn_DB := db_keep_all; Fn_Rule := rule_cp |})
       (demo_world, [])).2.2
    = [CallContentHash; CallHas h1; CallRun; CallContentHash; CallAdd h2].
Proof.
  eexists _, _, _.
  eapply (Fn_Run_records_rebuilt_hash
            {| Fn_DB := db_keep_all; Fn_Rule := rule_cp |} demo_world);
    (apply pair_eq; [vm_compute; reflexivity | reflexivity]).
Defined.

(** The same files with no database file at all. *)
Definition no_store_world : World :=
  {| files := demo_files; dbs := ∅; now := 1000 * time.Second; verbose := false;
     logged := [] |}.

Lemma Fn_Run_Has_error_witness :
  ∃ h1 w2,
    Fn_Run {| Fn_DB := db_keep_all; Fn_Rule := rule_cp |} no_store_world
    = (Val (Some (withMessage
                    (withMessage (errorString "no such table: hashes")
                                 "updating database")
                    "consulting hash DB")), w2) ∧
    (Fn_Run (spy_Fn {| Fn_DB := db_keep_all; Fn_Rule := rule_cp |})
       (no_store_world, [])).2.2
    = [CallContentHash; CallHas h1].
Proof.
  eexists _, _.
  eapply (Fn_Run_Has_error {| Fn_DB := db_keep_all; Fn_Rule := rule_cp |}
            no_store_world);
    (apply pair_eq; [vm_compute; reflexivity | reflexivity]).
Defined.

(** The store opened with [Keep(10s)]: the first invocation for [rule_cp]
    copies the file and returns the error of the eviction statement; the
    second one is a cache hit. *)
Definition demo_world_10s_error : option error :=
  Some (withMessage (errorString "not enough args to execute query")
                    "evicting expired database entries").

Lemma Fn_Run_under_Keep_witness :
  ∃ w4 h2,
    Fn_Run {| Fn_DB := db_keep_10s; Fn_Rule := rule_cp |} demo_world
    = (Val demo_world_10s_error, w4) ∧
    ∃ w5, Fn_Run (spy_Fn {| Fn_DB := db_keep_10s; Fn_Rule := rule_cp |}) (w4, [])
          = (Val None, (w5, [CallContentHash; CallHas h2])).
Proof.
  eexists _, _.
  eapply (Fn_Run_under_Keep demo_sha256 demo_Marshal_JRule demo_Marshal_content
            demo_Cmd_Run db_keep_10s rule_cp demo_world
            (JRule_Run demo_Cmd_Run rule_cp demo_world).2 _ _ ∅ ∅).
  - reflexivity.
  - reflexivity.
  - reflexivity.
  - apply pair_eq; [vm_compute; reflexivity | reflexivity].
  - apply pair_eq; [vm_compute; reflexivity | reflexivity].
  - reflexivity.
  - apply pair_eq; [vm_compute; reflexivity | reflexivity].
Defined.

Definition rule_cp_repeated : JRule :=
  {| Sources := ["a.txt"; "a.txt"]; Targets := ["b.txt"];
     Command := ["cp"; "a.txt"; "b.txt"]; Dir := "elsewhere" |}.

Lemma demo_files_ok (p : string) :
  p ∈ ["a.txt"; "b.txt"] → missing demo_files p ∨ readable demo_files p.
Proof.
  intros Hp. apply elem_of_cons in Hp as [->|Hp].
  - right. eexists. reflexivity.
  - apply list_elem_of_singleton in Hp as ->. left. eexists. split; reflexivity.
Qed.

Lemma ContentHash_ignores_order_and_repetition_witness :
  JRule_ContentHash demo_sha256 demo_Marshal_content rule_cp demo_world
  = JRule_ContentHash demo_sha256 demo_Marshal_content rule_cp_repeated demo_world.
Proof.
  apply (ContentHash_ignores_order_and_repetition demo_sha256 demo_Marshal_content
           rule_cp rule_cp_repeated demo_world).
  - intros p. simpl. rewrite !elem_of_cons. tauto.
  - intros p. reflexivity.
  - reflexivity.
  - apply demo_files_ok.
Defined.

(** The target is missing before the copy and present after it. *)
Lemma built_files_ok (p : string) :
  p ∈ ["a.txt"; "b.txt"] →
  missing (files built_world) p ∨ readable (files built_world) p.
Proof.
  intros Hp. apply elem_of_cons in Hp as [->|Hp].
  - right. eexists. reflexivity.
  - apply list_elem_of_singleton in Hp as ->. right. eexists. reflexivity.
Qed.

Lemma ContentHash_detects_change_witness :
  ∃ h h',
    JRule_ContentHash demo_sha256 demo_Marshal_content rule_cp demo_world
    = (Val (h, None), demo_world) ∧
    JRule_ContentHash demo_sha256 demo_Marshal_content rule_cp built_world
    = (Val (h', None), built_world) ∧
    h ≠ h'.
Proof.
  apply (ContentHash_detects_change demo_sha256 demo_Marshal_content rule_cp
           demo_world built_world "b.txt"
           (demo_Marshal_content (content_of demo_sha256 (files demo_world) rule_cp)).1
           (demo_Marshal_content (content_of demo_sha256 (files built_world) rule_cp)).1).
  - apply demo_files_ok.
  - apply built_files_ok.
  - apply list_elem_of_further, list_elem_of_here.
  - vm_compute. discriminate.
  - reflexivity.
  - reflexivity.
  - intros _. vm_compute. discriminate.
  - intros _. vm_compute. discriminate.
Defined.

Lemma ContentHash_reports_first_failure_witness :
  JRule_ContentHash demo_sha256 demo_Marshal_content rule_locked demo_world
  = (Val ([], Some (withMessage
                      (withMessage
                         (withMessage (PathError "open" "locked.txt" (Errno 13))
                                      "opening locked.txt")
                         "computing hash of locked.txt")
                      "computing source hash(es)")), demo_world).
Proof.
  assert (∀ p, p ∈ ["a.txt"] → missing demo_files p ∨ readable demo_files p) as Hpre.
  { intros p Hp. apply list_elem_of_singleton in Hp as ->.
    right. eexists. reflexivity. }
  apply (proj1 (ContentHash_reports_first_failure demo_sha256 demo_Marshal_content
                  rule_locked demo_world ["a.txt"] [] "locked.txt"
                  (withMessage (PathError "open" "locked.txt" (Errno 13))
                               "opening locked.txt")
                  Hpre
                  (open_failure demo_files "locked.txt" _ eq_refl eq_refl))).
  reflexivity.
Defined.

Lemma Fn_ID_same_identity_witness :
  ∃ digest,
    Fn_ID demo_sha256 demo_Marshal_ID "Generate"
      {| Fn_DB := db_keep_all; Fn_Rule := rule_cp_declared |} demo_world
    = (Val (hex_EncodeToString digest), demo_world) ∧
    Fn_ID demo_sha256 demo_Marshal_ID "Generate"
      {| Fn_DB := db_keep_10s; Fn_Rule := with_Dir rule_cp_reordered "sub" |}
      demo_world
    = (Val (hex_EncodeToString digest), demo_world) ∧
    String.length (hex_EncodeToString digest) = (2 * length digest)%nat.
Proof.
  apply (Fn_ID_same_identity demo_sha256 demo_Marshal_JRule demo_Marshal_content
           demo_Cmd_Run demo_Marshal_ID "Generate" db_keep_all db_keep_10s
           rule_cp_declared (with_Dir rule_cp_reordered "sub") demo_world).
  repeat split; simpl; [apply perm_swap..].
Defined.

Definition rule0_cp : JRule0 :=
  {| Sources0 := ["a.txt"]; Targets0 := ["b.txt"];
     Command0 := ["cp"; "a.txt"; "b.txt"] |}.

Lemma JRule0_Run_agrees_witness :
  JRule0_Run demo_Cmd_Run rule0_cp demo_world
  = JRule_Run demo_Cmd_Run (with_Dir0 rule0_cp "") demo_world.
Proof.
  apply (proj1 (proj2 (JRule0_Run_agrees demo_Cmd_Run rule0_cp demo_world))).
  reflexivity.
Defined.

Definition demo_Marshal_JRule0 (jr : JRule0) : bytes * option error :=
  demo_Marshal_JRule (with_Dir0 jr "").

Definition rule0_reordered : JRule0 :=
  {| Sources0 := ["z.txt"; "a.txt"]; Targets0 := ["b.txt"];
     Command0 := ["cp"; "a.txt"; "b.txt"] |}.

Definition rule0_declared : JRule0 :=
  {| Sources0 := ["a.txt"; "z.txt"]; Targets0 := ["b.txt"];
     Command0 := ["cp"; "a.txt"; "b.txt"] |}.

Lemma JRule0_RuleHash_identity_witness :
  JRule0_RuleHash demo_sha256 demo_Marshal_JRule0 rule0_declared
  = JRule0_RuleHash demo_sha256 demo_Marshal_JRule0 rule0_reordered ∧
  JRule0_RuleHash demo_sha256 demo_Marshal_JRule0 rule0_declared
  ≠ JRule0_RuleHash demo_sha256 demo_Marshal_JRule0 rule0_cp.
Proof.
  split.
  - apply (proj1 (JRule0_RuleHash_identity demo_sha256 demo_Marshal_JRule0
                    rule0_declared rule0_reordered)).
    repeat split; simpl; [apply perm_swap|reflexivity].
  - apply (proj2 (JRule0_RuleHash_identity demo_sha256 demo_Marshal_JRule0
                    rule0_declared rule0_cp)).
    + intros _. vm_compute. discriminate.
    + intros _. vm_compute. discriminate.
    + intros (Hs & _). apply Permutation_length in Hs. discriminate Hs.
Defined.

Definition rule_no_command : JRule :=
  {| Sources := ["a.txt"]; Targets := ["b.txt"]; Command := []; Dir := "" |}.

Lemma Fn_Run_empty_Command_witness :
  ∃ h,
    Fn_Run {| Fn_DB := db_keep_all; Fn_Rule := rule_no_command |} demo_world
    = (Panic "index out of range", demo_world) ∧
    (Fn_Run (spy_Fn {| Fn_DB := db_keep_all; Fn_Rule := rule_no_command |})
       (demo_world, [])).2.2
    = [CallContentHash; CallHas h; CallRun].
Proof.
  eexists.
  apply (proj2 (Fn_Run_empty_Command demo_sha256 demo_Marshal_JRule
                  demo_Marshal_content demo_Cmd_Run db_keep_all rule_no_command
                  demo_world _ ∅ eq_refl
                  (pair_eq _ _ _ eq_refl eq_refl) eq_refl)).
  reflexivity.
Defined.
